(** * Intune hardware-hash CSV consolidator: model and verification

    A shallow embedding of the core of [Intune_CSV_consolidator.py]
    (class [CsvConsolidator]): file discovery, per-file ingestion,
    aggregation, duplicate counting and export, then the console input,
    the progress display and [run], which chains them.

    Conventions of the embedding.
    - A Python [str] is a Rocq [string]; each [ascii] stands for one code
      point (the Latin-1 range).
    - A Python [dict] is a stdpp [gmap]; a Python [set] is a [gset].
    - Exceptions are explicit: fallible code lives in the error monad
      [Exc], and [try ... except Exception] is a handler on it.
    - The methods of [CsvConsolidator] that read or write [self] live in the
      state monad [M] over the record of the object's attributes.
    - The parts of the Python standard library the program calls ([csv],
      [glob], [pathlib], [collections.Counter]) are modelled after CPython's
      implementation (3.11 and later, POSIX flavour), restricted to the
      parameters this program uses. [csv.Sniffer] is not modelled: its
      verdict on a sample is part of the [World].
    - The source directory goes into the [glob] pattern as it is typed.
      When it holds none of the characters [*], [?] and [[], the pattern
      names the entries of that directory, and [glob] is modelled on its
      tree; otherwise what [glob] returns is part of the [World], and the
      theorems on discovery say that they need a name without such a
      character.
    - The clock, and whether the output file can be opened and written,
      are part of the [World] as well. *)

From Stdlib Require Import ZArith Ascii.
From stdpp Require Import base option list gmap sets strings sorting pretty.

Set Warnings "-register-all".

(** ** Exceptions *)

Inductive PyExc :=
  | OSError            (* open/read failed, or the bytes are not UTF-8 *)
  | CsvError           (* [_csv.Error] *)
  | IndexError
  | ValueError.

Inductive Exc (A : Type) :=
  | Ok (a : A)
  | Raise (e : PyExc).
Arguments Ok {A} a.
Arguments Raise {A} e.

Global Instance Exc_ret : MRet Exc := λ A a, Ok a.
Global Instance Exc_bind : MBind Exc := λ A B k m,
  match m with
  | Ok a => k a
  | Raise e => Raise e
  end.

(** ** Python [str] helpers *)

Module PyStr.

Definition is_empty (s : string) : bool :=
  match s with EmptyString => true | String _ _ => false end.

(** [str.isspace] on one code point below 256: TAB..CR, FS..US, space,
    NEL (0x85) and NBSP (0xA0). *)
Definition isspace (c : ascii) : bool :=
  let n := nat_of_ascii c in
  ((9 <=? n) && (n <=? 13)) || ((28 <=? n) && (n <=? 32))
  || (n =? 133) || (n =? 160).

Fixpoint lstrip (s : string) : string :=
  match s with
  | EmptyString => EmptyString
  | String c s' => if isspace c then lstrip s' else s
  end.

Fixpoint rstrip (s : string) : string :=
  match s with
  | EmptyString => EmptyString
  | String c s' =>
      let r := rstrip s' in
      if is_empty r && isspace c then EmptyString else String c r
  end.

(** [s.strip()] *)
Definition strip (s : string) : string := rstrip (lstrip s).

Fixpoint all_space (s : string) : bool :=
  match s with
  | EmptyString => true
  | String c s' => isspace c && all_space s'
  end.

(** [s[:n]] *)
Definition prefix (n : nat) (s : string) : string := String.substring 0 n s.

(** [s.endswith(suf)] *)
Definition endswith (suf s : string) : bool :=
  let n := String.length suf in
  let m := String.length s in
  (n <=? m) && bool_decide (String.substring (m - n) n s = suf).

(** [s.startswith(c)] for a single character *)
Definition startswith_char (c : ascii) (s : string) : bool :=
  match s with
  | String c' _ => bool_decide (c' = c)
  | EmptyString => false
  end.

Fixpoint chars (s : string) : list ascii :=
  match s with
  | EmptyString => []
  | String c s' => c :: chars s'
  end.

Definition snoc (s : string) (c : ascii) : string :=
  s +:+ String c EmptyString.

(** [sep.join(l)] *)
Fixpoint join (sep : string) (l : list string) : string :=
  match l with
  | [] => EmptyString
  | [x] => x
  | x :: l' => x +:+ sep +:+ join sep l'
  end.

Definition concat (l : list string) : string :=
  foldr String.append EmptyString l.

End PyStr.

(** Python [str] methods that depend on the class of each character *)

Module PyChar.

(** [c.isalnum()] on one code point below 256: the ASCII digits and
    letters, the letters of Latin-1, and its digit and fraction signs
    (superscripts one to three, one quarter to three quarters). *)
Definition isalnum (c : ascii) : bool :=
  let n := nat_of_ascii c in
  ((48 <=? n) && (n <=? 57)) || ((65 <=? n) && (n <=? 90))
  || ((97 <=? n) && (n <=? 122))
  || (n =? 170) || (n =? 178) || (n =? 179) || (n =? 181)
  || (n =? 185) || (n =? 186) || ((188 <=? n) && (n <=? 190))
  || ((192 <=? n) && (n <=? 214)) || ((216 <=? n) && (n <=? 246))
  || ((248 <=? n) && (n <=? 255)).

(** [c.lower()] on one code point below 256 *)
Definition lower (c : ascii) : ascii :=
  let n := nat_of_ascii c in
  if ((65 <=? n) && (n <=? 90))
     || ((192 <=? n) && (n <=? 222) && negb (n =? 215))
  then ascii_of_nat (n + 32) else c.

(** [s.lower()] *)
Fixpoint str_lower (s : string) : string :=
  match s with
  | EmptyString => EmptyString
  | String c s' => String (lower c) (str_lower s')
  end.

(** [''.join(c for c in s if keep(c))] *)
Fixpoint str_filter (keep : ascii → bool) (s : string) : string :=
  match s with
  | EmptyString => EmptyString
  | String c s' =>
      if keep c then String c (str_filter keep s') else str_filter keep s'
  end.

(** [s.replace(a, b)] for single characters *)
Fixpoint replace_char (a b : ascii) (s : string) : string :=
  match s with
  | EmptyString => EmptyString
  | String c s' =>
      String (if bool_decide (c = a) then b else c) (replace_char a b s')
  end.

(** [c * n]: the empty string when [n] is not positive *)
Definition repeat_char (c : ascii) (n : Z) : string :=
  Nat.iter (Z.to_nat n) (String c) EmptyString.

End PyChar.

(** ** Rows

    A row is a Python [dict]. The rows of this program have [str] keys
    whose values are a [str] or [None] (the [restval] of [csv.DictReader]),
    and possibly the key [None] (the [restkey] of [csv.DictReader]) whose
    value is a list of [str]. [cells] holds the entries under [str] keys,
    [restkey] the entry under the key [None]. *)

Record Row := mkRow {
  cells : gmap string (option string);
  restkey : option (list string)
}.

(** [{}] *)
Definition empty_row : Row := {| cells := ∅; restkey := None |}.

(** [d[key] = value] for a [str] key *)
Definition row_set (key : string) (value : option string) (d : Row) : Row :=
  {| cells := <[key := value]> (cells d); restkey := restkey d |}.

(** [d.keys()] *)
Definition row_keys (d : Row) : gset (option string) :=
  set_map Some (dom (cells d)) ∪
  match restkey d with Some _ => {[ None ]} | None => ∅ end.

(** [d.get(key)]: the value, or [None] when the key is missing *)
Definition row_get (d : Row) (key : string) : option string :=
  default None (cells d !! key).

(** Truth value of a [str] or [None] *)
Definition truthy (v : option string) : bool :=
  match v with
  | Some s => negb (PyStr.is_empty s)
  | None => false
  end.

(** [a or b] *)
Definition py_or (a b : option string) : option string :=
  if truthy a then a else b.

(** [list(enumerate(l))] *)
Definition enumerate {A} (l : list A) : list (nat * A) := imap pair l.

(** [l[i]] *)
Definition py_index {A} (l : list A) (i : nat) : Exc A :=
  match l !! i with
  | Some x => Ok x
  | None => Raise IndexError
  end.

(** ** The [csv] module *)

Module Csv.

Definition dquote : ascii := ascii_of_nat 34.
Definition CR : ascii := ascii_of_nat 13.
Definition LF : ascii := ascii_of_nat 10.
Definition SP : ascii := ascii_of_nat 32.
Definition comma : ascii := ascii_of_nat 44.

(** The attributes of a dialect that differ between [csv.excel] and what
    [csv.Sniffer.sniff] builds. Both have [quoting = QUOTE_MINIMAL],
    [lineterminator = CR LF], no [escapechar] and [strict = False]. *)
Record Dialect := mkDialect {
  delimiter : ascii;
  quotechar : ascii;
  doublequote : bool;
  skipinitialspace : bool
}.

Definition excel : Dialect :=
  {| delimiter := comma; quotechar := dquote;
     doublequote := true; skipinitialspace := false |}.

(** *** [csv.reader]: the state machine of [Modules/_csv.c] *)

(** [ESCAPED_CHAR], [ESCAPE_IN_QUOTED_FIELD] and [AFTER_ESCAPED_CRNL] are
    entered only through an [escapechar]; no dialect here has one. *)
Inductive ParserState :=
  | START_RECORD
  | START_FIELD
  | IN_FIELD
  | IN_QUOTED_FIELD
  | QUOTE_IN_QUOTED_FIELD
  | EAT_CRNL.

Global Instance ParserState_eq_dec : EqDecision ParserState.
Proof. solve_decision. Defined.

Record Reader := mkReader {
  state : ParserState;
  fields : list string;     (* the fields of the record read so far *)
  field : string            (* the field being read *)
}.

(** [parse_reset] *)
Definition parse_reset : Reader :=
  {| state := START_RECORD; fields := []; field := EmptyString |}.

Definition set_state (s : ParserState) (r : Reader) : Reader :=
  {| state := s; fields := fields r; field := field r |}.

(** [csv.field_size_limit()], default 128 KiB *)
Definition field_limit : N := 131072.

(** [parse_add_char] *)
Definition parse_add_char (r : Reader) (c : ascii) : Exc Reader :=
  if (field_limit <=? N.of_nat (String.length (field r)))%N
  then Raise CsvError
  else Ok {| state := state r; fields := fields r;
             field := PyStr.snoc (field r) c |}.

(** [parse_save_field] *)
Definition parse_save_field (r : Reader) : Reader :=
  {| state := state r; fields := fields r ++ [field r];
     field := EmptyString |}.

Definition is_newline (c : ascii) : bool :=
  bool_decide (c = LF) || bool_decide (c = CR).

(** [parse_process_char]; [None] is the end-of-line marker [EOL] that
    [Reader_iternext] feeds after the characters of each line. *)
Definition start_field (d : Dialect) (r : Reader) (c : option ascii)
  : Exc Reader :=
  match c with
  | None => Ok (set_state START_RECORD (parse_save_field r))
  | Some ch =>
      if is_newline ch then Ok (set_state EAT_CRNL (parse_save_field r))
      else if bool_decide (ch = quotechar d)
      then Ok (set_state IN_QUOTED_FIELD r)
      else if bool_decide (ch = SP) && skipinitialspace d then Ok r
      else if bool_decide (ch = delimiter d)
      then Ok (parse_save_field r)
      else r' ← parse_add_char r ch; Ok (set_state IN_FIELD r')
  end.

Definition parse_process_char (d : Dialect) (r : Reader) (c : option ascii)
  : Exc Reader :=
  match state r with
  | START_RECORD =>
      match c with
      | None => Ok r                                  (* empty line *)
      | Some ch =>
          if is_newline ch then Ok (set_state EAT_CRNL r)
          else start_field d (set_state START_FIELD r) c
      end
  | START_FIELD => start_field d r c
  | IN_FIELD =>
      match c with
      | None => Ok (set_state START_RECORD (parse_save_field r))
      | Some ch =>
          if is_newline ch then Ok (set_state EAT_CRNL (parse_save_field r))
          else if bool_decide (ch = delimiter d)
          then Ok (set_state START_FIELD (parse_save_field r))
          else parse_add_char r ch
      end
  | IN_QUOTED_FIELD =>
      match c with
      | None => Ok r
      | Some ch =>
          if bool_decide (ch = quotechar d)
          then Ok (set_state (if doublequote d then QUOTE_IN_QUOTED_FIELD
                              else IN_FIELD) r)
          else parse_add_char r ch
      end
  | QUOTE_IN_QUOTED_FIELD =>
      match c with
      | None => Ok (set_state START_RECORD (parse_save_field r))
      | Some ch =>
          if bool_decide (ch = quotechar d)
          then r' ← parse_add_char r ch; Ok (set_state IN_QUOTED_FIELD r')
          else if bool_decide (ch = delimiter d)
          then Ok (set_state START_FIELD (parse_save_field r))
          else if is_newline ch
          then Ok (set_state EAT_CRNL (parse_save_field r))
          else r' ← parse_add_char r ch; Ok (set_state IN_FIELD r')
      end
  | EAT_CRNL =>
      match c with
      | None => Ok (set_state START_RECORD r)
      | Some ch => if is_newline ch then Ok r else Raise CsvError
      end
  end.

(** The lines a text file opened with [newline=''] iterates over: a line
    ends after LF, after CR LF, or after a CR not followed by LF, and
    keeps its terminator. [cur] is the line being collected. *)
Fixpoint splitlines_from (cur : string) (s : string) : list string :=
  match s with
  | EmptyString => if PyStr.is_empty cur then [] else [cur]
  | String c s' =>
      if bool_decide (c = LF)
      then PyStr.snoc cur c :: splitlines_from EmptyString s'
      else if bool_decide (c = CR)
      then match s' with
           | String c' s'' =>
               if bool_decide (c' = LF)
               then PyStr.snoc (PyStr.snoc cur c) c'
                      :: splitlines_from EmptyString s''
               else PyStr.snoc cur c :: splitlines_from EmptyString s'
           | EmptyString => [PyStr.snoc cur c]
           end
      else splitlines_from (PyStr.snoc cur c) s'
  end.

Definition splitlines : string → list string :=
  splitlines_from EmptyString.

(** One pass of the inner loop of [Reader_iternext]: the characters of a
    line, then [EOL]. *)
Definition process_line (d : Dialect) (r : Reader) (line : string)
  : Exc Reader :=
  r' ← foldl (λ acc ch, r0 ← acc; parse_process_char d r0 (Some ch))
              (Ok r) (PyStr.chars line);
  parse_process_char d r' None.

(** [list(csv.reader(f, dialect))] over the remaining lines. A record is
    complete when a line ends in state [START_RECORD]; at the end of the
    input an unfinished record is returned if a field is pending or a
    quoted field is open ([strict] is off). *)
Fixpoint reader_loop (d : Dialect) (lines : list string) (r : Reader)
  : Exc (list (list string)) :=
  match lines with
  | [] =>
      if negb (PyStr.is_empty (field r))
         || bool_decide (state r = IN_QUOTED_FIELD)
      then Ok [fields (parse_save_field r)]
      else Ok []
  | line :: more =>
      r' ← process_line d r line;
      if bool_decide (state r' = START_RECORD)
      then recs ← reader_loop d more parse_reset; Ok (fields r' :: recs)
      else reader_loop d more r'
  end.

Definition reader (d : Dialect) (content : string)
  : Exc (list (list string)) :=
  reader_loop d (splitlines content) parse_reset.

(** *** [csv.writer] with the default dialect ([csv.excel]) *)

(** [join_append_data]: a field is quoted when it holds the delimiter,
    the quote character or a character of the line terminator; quote
    characters are doubled. *)
Definition needs_quotes (c : ascii) : bool :=
  bool_decide (c = delimiter excel) || bool_decide (c = quotechar excel)
  || is_newline c.

Fixpoint escape_field (s : string) : string :=
  match s with
  | EmptyString => EmptyString
  | String c s' =>
      if bool_decide (c = quotechar excel)
      then String c (String c (escape_field s'))
      else String c (escape_field s')
  end.

Definition quote_field (s : string) : string :=
  String (quotechar excel) (PyStr.snoc (escape_field s) (quotechar excel)).

Definition join_append (s : string) : string :=
  if existsb needs_quotes (PyStr.chars s) then quote_field s else s.

Definition lineterminator : string := String CR (String LF EmptyString).

(** [writer.writerow(row)]: the text written for one record. A record
    made of a single empty field is written as a quoted empty field. *)
Definition writerow (row : list string) : string :=
  let body := PyStr.join (String (delimiter excel) EmptyString)
                         (join_append <$> row) in
  (if bool_decide (row ≠ []) && PyStr.is_empty body
   then quote_field EmptyString else body) +:+ lineterminator.

(** *** [csv.DictReader] over the records of the underlying reader *)

(** [reader.fieldnames]: the first record, [None] if there is none *)
Definition DictReader_fieldnames (recs : list (list string))
  : option (list string) := head recs.

(** The body of [DictReader.__next__] for a non-blank record *)
Definition DictReader_row (fieldnames row : list string) : Row :=
  let d := foldl (λ m kv, <[kv.1 := Some kv.2]> m) ∅ (zip fieldnames row) in
  let lf := length fieldnames in
  let lr := length row in
  if lf <? lr then {| cells := d; restkey := Some (drop lf row) |}
  else if lr <? lf
  then {| cells := foldl (λ m key, <[key := None]> m) d (drop lr fieldnames);
          restkey := None |}
  else {| cells := d; restkey := None |}.

(** [list(reader)]: blank records are skipped *)
Definition DictReader_rows (recs : list (list string)) : list Row :=
  match recs with
  | [] => []
  | fieldnames :: rest =>
      DictReader_row fieldnames <$> filter (λ row, row ≠ []) rest
  end.

(** *** [csv.DictWriter] with [restval=''] and [extrasaction='raise'] *)

(** The text of a cell: [None] is written as the empty string *)
Definition cell_text (v : option (option string)) : string :=
  match v with
  | Some (Some s) => s
  | Some None => EmptyString
  | None => EmptyString
  end.

(** [DictWriter._dict_to_list] *)
Definition dict_to_list (fieldnames : list string) (rowdict : Row)
  : Exc (list string) :=
  if decide (row_keys rowdict ⊆ list_to_set (Some <$> fieldnames))
  then Ok ((λ key, cell_text (cells rowdict !! key)) <$> fieldnames)
  else Raise ValueError.

(** [DictWriter.writeheader] *)
Definition writeheader (fieldnames : list string) : string :=
  writerow fieldnames.

(** [DictWriter.writerows]: the text written, and how the call ended.
    Rows are converted and written one at a time, so the rows before a
    failing one have been written. *)
Fixpoint writerows (fieldnames : list string) (rowdicts : list Row)
  : string * Exc unit :=
  match rowdicts with
  | [] => (EmptyString, Ok ())
  | rowdict :: more =>
      match dict_to_list fieldnames rowdict with
      | Raise e => (EmptyString, Raise e)
      | Ok l =>
          let '(out, res) := writerows fieldnames more in
          (writerow l +:+ out, res)
      end
  end.

End Csv.

(** ** Paths and [glob] *)

(** A [pathlib.Path] is the list of its parts. *)
Abbreviation Path := (list string).

Module PyPath.

(** [PurePosixPath.__lt__]: the parts are compared as Python compares
    lists, at the first position where they differ; a proper prefix is
    smaller. *)
Fixpoint lt (p q : Path) : bool :=
  match p, q with
  | _, [] => false
  | [], _ :: _ => true
  | x :: p', y :: q' =>
      if decide (x = y) then lt p' q' else String.ltb x y
  end.

(** The order [sorted] leaves a list in: no element is above a later one *)
Definition le (p q : Path) : Prop := lt q p = false.

Global Instance le_dec : RelDecision le.
Proof. intros p q. unfold le. apply _. Defined.

(** [str(path)]: a root, [/] or [//], is not followed by a separator *)
Definition str (p : Path) : string :=
  match p with
  | root :: rest =>
      if PyStr.startswith_char "/" root then root +:+ PyStr.join "/" rest
      else PyStr.join "/" p
  | [] => "."
  end.

(** [s.split("/")]; [cur] is the component being collected *)
Fixpoint split_from (cur : string) (s : string) : list string :=
  match s with
  | EmptyString => [cur]
  | String c s' =>
      if bool_decide (c = "/"%char) then cur :: split_from EmptyString s'
      else split_from (PyStr.snoc cur c) s'
  end.

(** The number of [/] a string starts with *)
Fixpoint leading_slashes (s : string) : nat :=
  match s with
  | String c s' =>
      if bool_decide (c = "/"%char) then S (leading_slashes s') else 0
  | EmptyString => 0
  end.

(** [PurePosixPath(s).parts]: the root, which is [//] when the string
    starts with exactly two slashes and [/] when it starts with any other
    number of them, then the components that are neither empty nor [.] *)
Definition parse (s : string) : Path :=
  match leading_slashes s with
  | 0 => []
  | 2 => ["//"]
  | _ => ["/"]
  end ++ filter (λ x, x ≠ EmptyString ∧ x ≠ ".") (split_from EmptyString s).

(** [path.name] *)
Definition name (p : Path) : string := default EmptyString (last p).

End PyPath.

Module OsPath.

(** [os.path.join(a, b)] of [posixpath] *)
Definition join (a b : string) : string :=
  if PyStr.startswith_char "/" b then b
  else if PyStr.is_empty a || PyStr.endswith "/" a then a +:+ b
  else a +:+ "/" +:+ b.

End OsPath.

Module Glob.

(** What lies under a directory: entry names in [os.scandir] order *)
Inductive Node :=
  | File
  | Dir (entries : list (string * Node)).

(** [glob.has_magic]: the string holds one of [*], [?] and [[] *)
Definition has_magic (s : string) : bool :=
  existsb (λ c, bool_decide (c = "*"%char) || bool_decide (c = "?"%char)
                || bool_decide (c = "["%char))
          (PyStr.chars s).

(** [glob._ishidden] *)
Definition ishidden (name : string) : bool :=
  PyStr.startswith_char "." name.

(** [fnmatch] against [*.csv] (POSIX: case-sensitive) *)
Definition fnmatch_csv (name : string) : bool :=
  PyStr.endswith ".csv" name.

Definition matches (name : string) : Prop :=
  ishidden name = false ∧ fnmatch_csv name = true.

Global Instance matches_dec name : Decision (matches name).
Proof. unfold matches. apply _. Defined.

(** [glob1(dirname, '*.csv')]: matching names in one directory *)
Definition glob1 (entries : list (string * Node)) : list string :=
  filter matches (entries.*1).

(** [glob(join(root, '*.csv'))] for a [root] without metacharacter,
    relative to the root *)
Definition glob_top (n : Node) : list Path :=
  match n with
  | File => []
  | Dir entries => (λ name, [name]) <$> glob1 entries
  end.

(** [glob(join(root, '**', '*.csv'), recursive=True)] for a [root]
    without metacharacter, relative to the root: [**] stands for the root
    and every directory below it that is reached through non-hidden
    names. *)
Fixpoint glob_rec (n : Node) : list Path :=
  match n with
  | File => []
  | Dir entries =>
      ((λ name, [name]) <$> glob1 entries) ++
      flat_map (λ e, if ishidden e.1 then []
                     else cons e.1 <$> glob_rec e.2) entries
  end.

(** [ds] leads from [n] down to [n'] through non-hidden directories *)
Inductive descends : Node → list string → Node → Prop :=
  | descends_nil n : descends n [] n
  | descends_cons entries name sub ds n' :
      (name, sub) ∈ entries →
      ishidden name = false →
      descends sub ds n' →
      descends (Dir entries) (name :: ds) n'.

End Glob.

(** ** The consolidator *)

(** What the program finds outside itself:
    - [tree]: the directory tree under the source directory;
    - [glob_magic]: what [glob.glob(pattern, recursive=...)] returns for a
      pattern whose directory part holds a metacharacter, and so names
      other directories than the one typed;
    - [open_read]: the outcome of opening and decoding a file as
      [utf-8-sig] text;
    - [sniff]: the outcome of [csv.Sniffer().sniff] on a sample;
    - [timestamp]: [datetime.now().strftime("%Y-%m-%d_%H%M")];
    - [open_write]: the outcome of opening a path for writing;
    - [write_text]: the outcome of writing a text to the file opened at a
      path, the final flush and [close] included. *)
Record World := mkWorld {
  tree : Glob.Node;
  glob_magic : string → bool → list string;
  open_read : Path → Exc string;
  sniff : string → Exc Csv.Dialect;
  timestamp : string;
  open_write : string → Exc unit;
  write_text : string → string → Exc unit
}.

(** The attributes of a [CsvConsolidator] *)
Record CsvConsolidator := mkSelf {
  companyName : string;
  sourceDirectory : string;
  includeSubdirectories : bool;
  csvFiles : list Path;
  consolidatedData : list Row;
  allHeaders : gset string;
  processedCount : nat;
  errorCount : nat;
  errorFiles : list string
}.

(** [CsvConsolidator.__init__] *)
Definition init : CsvConsolidator :=
  {| companyName := EmptyString; sourceDirectory := EmptyString;
     includeSubdirectories := false; csvFiles := [];
     consolidatedData := []; allHeaders := ∅;
     processedCount := 0; errorCount := 0; errorFiles := [] |}.

Definition set_csvFiles (v : list Path) (self : CsvConsolidator) :=
  {| companyName := companyName self;
     sourceDirectory := sourceDirectory self;
     includeSubdirectories := includeSubdirectories self;
     csvFiles := v;
     consolidatedData := consolidatedData self;
     allHeaders := allHeaders self;
     processedCount := processedCount self;
     errorCount := errorCount self;
     errorFiles := errorFiles self |}.

(** [self.includeSubdirectories = v], as [getUserInputs] does *)
Definition set_includeSubdirectories (v : bool) (self : CsvConsolidator) :=
  {| companyName := companyName self;
     sourceDirectory := sourceDirectory self;
     includeSubdirectories := v;
     csvFiles := csvFiles self;
     consolidatedData := consolidatedData self;
     allHeaders := allHeaders self;
     processedCount := processedCount self;
     errorCount := errorCount self;
     errorFiles := errorFiles self |}.

(** The three statements of the success branch of [consolidateFiles] *)
Definition record_success (data : list Row) (headers : list string)
    (self : CsvConsolidator) :=
  {| companyName := companyName self;
     sourceDirectory := sourceDirectory self;
     includeSubdirectories := includeSubdirectories self;
     csvFiles := csvFiles self;
     consolidatedData := consolidatedData self ++ data;
     allHeaders := allHeaders self ∪ list_to_set headers;
     processedCount := processedCount self + 1;
     errorCount := errorCount self;
     errorFiles := errorFiles self |}.

(** The two statements of the failure branch of [consolidateFiles] *)
Definition record_error (name : string) (self : CsvConsolidator) :=
  {| companyName := companyName self;
     sourceDirectory := sourceDirectory self;
     includeSubdirectories := includeSubdirectories self;
     csvFiles := csvFiles self;
     consolidatedData := consolidatedData self;
     allHeaders := allHeaders self;
     processedCount := processedCount self;
     errorCount := errorCount self + 1;
     errorFiles := errorFiles self ++ [name] |}.

(** *** The state monad of the methods *)

Definition M (A : Type) : Type := CsvConsolidator → A * CsvConsolidator.

Global Instance M_ret : MRet M := λ A a self, (a, self).
Global Instance M_bind : MBind M := λ A B k m self,
  let '(a, self') := m self in k a self'.
Definition gets {A} (f : CsvConsolidator → A) : M A := λ self, (f self, self).
Definition modify (f : CsvConsolidator → CsvConsolidator) : M unit :=
  λ self, (tt, f self).

(** [for x in l: body(x)] *)
Fixpoint for_each {A} (l : list A) (body : A → M unit) : M unit :=
  match l with
  | [] => mret tt
  | x :: l' => body x;; for_each l' body
  end.

(** [sorted(paths)] *)
Definition sorted_paths (l : list Path) : list Path :=
  merge_sort PyPath.le l.

(** [sorted(headers)] for a set of [str] *)
Definition sorted_strs (s : gset string) : list string :=
  merge_sort String.le (elements s).

(** *** [findCsvFiles] *)

(** [[Path(f) for f in glob.glob(pattern, recursive=recursive)]] for the
    pattern [findCsvFiles] builds from [root]. When [root] has no
    metacharacter, [glob] returns [root] joined with entries of its tree,
    and the parts of such a path are the parts of [root] followed by the
    names that lead to the entry. *)
Definition glob_csv (w : World) (root : string) (recursive : bool)
  : list Path :=
  let pattern :=
    if recursive then OsPath.join (OsPath.join root "**") "*.csv"
    else OsPath.join root "*.csv" in
  if Glob.has_magic root
  then PyPath.parse <$> glob_magic w pattern recursive
  else (λ rel, PyPath.parse root ++ rel) <$>
       (if recursive then Glob.glob_rec (tree w) else Glob.glob_top (tree w)).

Definition findCsvFiles (w : World) : M bool :=
  (recursive ← gets includeSubdirectories;
   root ← gets sourceDirectory;
   (if recursive : bool
    then modify (set_csvFiles (glob_csv w root true))
    else modify (set_csvFiles (glob_csv w root false)));;
   found ← gets csvFiles;
   modify (set_csvFiles (sorted_paths found));;
   files ← gets csvFiles;
   match files with
   | [] => mret false
   | _ :: _ => mret true
   end).

(** *** [readCsvFile] *)

(** [[f"Column{i+1}" for i in range(numColumns)]] *)
Definition column_name (i : nat) : string := "Column" +:+ pretty (i + 1).
Definition generic_headers (numColumns : nat) : list string :=
  column_name <$> seq 0 numColumns.

(** The inner loop:
    [for i, value in enumerate(row[:numColumns]): rowDict[headers[i]] = value] *)
Definition make_rowDict (headers : list string) (numColumns : nat)
    (row : list string) : Exc Row :=
  foldl (λ acc iv,
           rowDict ← acc;
           key ← py_index headers iv.1;
           Ok (row_set key (Some iv.2) rowDict))
        (Ok empty_row) (enumerate (take numColumns row)).

(** The outer loop: [for row in rows: if row: ... data.append(rowDict)] *)
Definition rows_to_dicts (headers : list string) (numColumns : nat)
    (rows : list (list string)) : Exc (list Row) :=
  foldl (λ acc row,
           data ← acc;
           match row with
           | [] => Ok data
           | _ :: _ =>
               rowDict ← make_rowDict headers numColumns row;
               Ok (data ++ [rowDict])
           end)
        (Ok []) rows.

Definition Outcome : Type := list Row * list string * bool.

Definition failure : Outcome := ([], [], false).

(** The block that treats the file as headerless; the source has it twice,
    word for word (lines 353-367 and 376-390). [None] stands for leaving the
    [if rows:] without returning. *)
Definition headerless (rows : list (list string)) : Exc (option Outcome) :=
  match rows with
  | [] => Ok None
  | first :: _ =>
      let numColumns := length first in
      let headers := generic_headers numColumns in
      data ← rows_to_dicts headers numColumns rows;
      Ok (Some (data, headers, true))
  end.

(** [try: dialect = csv.Sniffer().sniff(content[:1024])]
    [except: dialect = csv.excel] *)
Definition sniff_dialect (w : World) (content : string) : Csv.Dialect :=
  match sniff w (PyStr.prefix 1024 content) with
  | Ok d => d
  | Raise _ => Csv.excel
  end.

(** The part of the [try] that follows the choice of the dialect. The
    file is read through [csv] up to three times after [seek(0)]; every
    pass sees the same text. *)
Definition read_with_dialect (dialect : Csv.Dialect) (content : string)
  : Exc Outcome :=
  let as_headerless : Exc Outcome :=
    rows ← Csv.reader dialect content;
    r ← headerless rows;
    Ok (default failure r) in
  recs ← Csv.reader dialect content;
  match Csv.DictReader_fieldnames recs with
  | Some ((_ :: _) as fieldnames) =>
      match Csv.DictReader_rows recs with
      | [] =>
          rows ← Csv.reader dialect content;
          r ← headerless rows;
          match r with
          | Some out => Ok out
          | None => as_headerless
          end
      | data => Ok (data, fieldnames, true)
      end
  | _ => as_headerless
  end.

(** The body of the [try] *)
Definition readCsvFile_try (w : World) (filePath : Path) : Exc Outcome :=
  content ← open_read w filePath;
  if PyStr.is_empty (PyStr.strip content) then Ok failure
  else read_with_dialect (sniff_dialect w content) content.

(** [try: ... except Exception: return [], [], False] *)
Definition readCsvFile (w : World) (filePath : Path) : Outcome :=
  match readCsvFile_try w filePath with
  | Ok out => out
  | Raise _ => failure
  end.

(** *** [consolidateFiles] *)

Definition consolidateFiles (w : World) : M bool :=
  (files ← gets csvFiles;
   for_each files (λ csvFile,
     let '(data, headers, success) := readCsvFile w csvFile in
     if success && bool_decide (data ≠ [])
     then modify (record_success data headers)
     else modify (record_error (PyPath.name csvFile)));;
   data ← gets consolidatedData;
   mret (bool_decide (0 < length data))).

(** *** [checkDuplicates] *)

(** [collections.Counter(l)] *)
Definition Counter (l : list string) : gmap string nat :=
  foldl (λ c x, <[x := default 0 (c !! x) + 1]> c) ∅ l.

(** The serial number of a row: the chain of [or] over the three keys *)
Definition serialNumber (row : Row) : option string :=
  py_or (py_or (row_get row "Device Serial Number")
               (row_get row "Serial Number"))
        (row_get row "DeviceSerialNumber").

(** The list built by the [for] loop of [checkDuplicates] *)
Definition serialNumbers (rows : list Row) : list string :=
  foldl (λ acc row,
           match serialNumber row with
           | Some s => if truthy (Some s) then acc ++ [s] else acc
           | None => acc
           end) [] rows.

Definition checkDuplicates : M Z :=
  (rows ← gets consolidatedData;
   let serials := serialNumbers rows in
   match serials with
   | _ :: _ =>
       let counter := Counter serials in
       let duplicates := filter (λ kv, 1 < kv.2) counter in
       let duplicateCount :=
         (Z.of_nat (sum_list ((map_to_list duplicates).*2))
          - Z.of_nat (size duplicates))%Z in
       mret duplicateCount
   | [] => mret 0%Z
   end).

(** *** [exportResults] *)

(** [sanitizedCompanyName] *)
Definition sanitizedCompanyName (companyName : string) : string :=
  PyChar.replace_char " " "_"
    (PyChar.str_filter
       (λ c, PyChar.isalnum c
             || bool_decide (c = " "%char) || bool_decide (c = "-"%char)
             || bool_decide (c = "_"%char))
       companyName).

(** [outputFileName]; [timestamp] is the clock formatted by
    [strftime("%Y-%m-%d_%H%M")] *)
Definition outputFileName (companyName timestamp : string) : string :=
  sanitizedCompanyName companyName +:+ "_ConsolidatedHardwareHashes_"
  +:+ timestamp +:+ ".csv".

(** [outputPath]: [os.path.join(self.sourceDirectory, outputFileName)] *)
Definition outputPath (w : World) (self : CsvConsolidator) : string :=
  OsPath.join (sourceDirectory self)
              (outputFileName (companyName self) (timestamp w)).

(** What [exportResults] leaves behind: the text of the output file (after
    the byte-order mark) and the returned path. [written] is [None] when
    the file could not be opened or the operating system refused the text;
    [returned] is [None] when the [except] branch ran. *)
Record Export := mkExport {
  written : option string;
  returned : option string
}.

(** The [with] block is left by the end of [writerows] or by the
    [ValueError] of a row; either way the file is closed, with the text
    written so far. *)
Definition exportResults (w : World) : M Export :=
  (outputPath ← gets (outputPath w);
   headers ← gets allHeaders;
   data ← gets consolidatedData;
   match open_write w outputPath with
   | Raise _ => mret {| written := None; returned := None |}
   | Ok _ =>
       let fieldnames := sorted_strs headers in
       let head := Csv.writeheader fieldnames in
       let '(body, res) := Csv.writerows fieldnames data in
       match write_text w outputPath (head +:+ body) with
       | Raise _ => mret {| written := None; returned := None |}
       | Ok _ =>
           mret {| written := Some (head +:+ body);
                  returned := match res with
                              | Ok _ => Some outputPath
                              | Raise _ => None
                              end |}
       end
   end).

(** ** The rest of the class: console input, progress, [run] *)


(** *** [validateCompanyName], [getValidatedInput], [getYesNoInput] *)

(** [bool(name and name.strip())] *)
Definition validateCompanyName (name : string) : bool :=
  negb (PyStr.is_empty name) && negb (PyStr.is_empty (PyStr.strip name)).

(** The loop of [getValidatedInput] over the lines the user types. The
    result holds the accepted input, the number of error messages written
    before it, and the lines left unread; [None] when the lines run out
    ([input] raises [EOFError]). *)
Fixpoint getValidatedInput (validationFunc : string → bool)
    (lines : list string) : option (string * nat * list string) :=
  match lines with
  | [] => None
  | line :: more =>
      let userInput := PyStr.strip line in
      if validationFunc userInput then Some (userInput, 0, more)
      else
        match getValidatedInput validationFunc more with
        | Some (accepted, errors, rest) => Some (accepted, S errors, rest)
        | None => None
        end
  end.

(** [getYesNoInput] on the line the user types *)
Definition getYesNoInput (line : string) : bool :=
  let response := PyChar.str_lower (PyStr.strip line) in
  bool_decide (response = "y") || bool_decide (response = "yes").

(** *** [showProgressBar] *)

Definition barLength : Z := 50.

(** [int(barLength * current // total)]; [None] stands for
    [ZeroDivisionError] *)
Definition filledLength (current total : Z) : option Z :=
  if (total =? 0)%Z then None else Some (barLength * current / total)%Z.

(** ["=" * filledLength + " " * (barLength - filledLength)] *)
Definition progress_bar (filled : Z) : string :=
  PyChar.repeat_char "=" filled
  +:+ PyChar.repeat_char " " (barLength - filled).

(** [fileName[:30] + "..." if len(fileName) > 30 else fileName], the
    activity label [consolidateFiles] passes *)
Definition activity_label (fileName : string) : string :=
  if 30 <? String.length fileName
  then PyStr.prefix 30 fileName +:+ "..." else fileName.

(** *** [run] *)



(** ** Specification-side notions *)

(** *** Duplicate counting, in the words of the specification *)

Definition candidate_keys : list string :=
  ["Device Serial Number"; "Serial Number"; "DeviceSerialNumber"].

(** The value of a row under a key, when it is present and non-empty *)
Definition nonempty_value (row : Row) (key : string) : option string :=
  match cells row !! key with
  | Some (Some s) => if PyStr.is_empty s then None else Some s
  | _ => None
  end.

(** The identifier of a row: the first non-empty value under the candidate
    keys, in their order *)
Definition spec_identifier (row : Row) : option string :=
  head (omap (nonempty_value row) candidate_keys).

(** Number of occurrences of [x] in [l] *)
Definition occurrences (l : list string) (x : string) : nat :=
  length (filter (λ y, y = x) l).

(** The distinct identifiers that occur at least twice *)
Definition repeated (l : list string) : list string :=
  filter (λ x, 2 ≤ occurrences l x) (remove_dups l).

Definition spec_countDuplicates (ids : list string) : Z :=
  (Z.of_nat (sum_list (occurrences ids <$> repeated ids))
   - Z.of_nat (length (repeated ids)))%Z.

(** A row holding one cell *)
Definition single_cell (key value : string) : Row :=
  {| cells := {[ key := Some value ]}; restkey := None |}.

(** A dataset whose identifiers are A, A, B, C, C, C, found under the three
    candidate keys; two rows carry no identifier. *)
Definition dataset_AABCCC : CsvConsolidator :=
  {| companyName := "Contoso"; sourceDirectory := "data";
     includeSubdirectories := false; csvFiles := [];
     consolidatedData :=
       [ single_cell "Serial Number" "A";
         single_cell "Device Serial Number" "A";
         single_cell "Model" "Laptop";
         single_cell "DeviceSerialNumber" "B";
         single_cell "Serial Number" "C";
         single_cell "Serial Number" EmptyString;
         single_cell "Device Serial Number" "C";
         single_cell "Serial Number" "C" ];
     allHeaders := {[ "Serial Number"; "Device Serial Number"; "Model";
                      "DeviceSerialNumber" ]};
     processedCount := 1; errorCount := 0; errorFiles := [] |}.

(** *** Ingestion *)

(** [d] is the row synthesized from the record [row] under [numColumns]
    generic headers: the first [numColumns] fields of the record, keyed
    Column1, Column2, ... *)
Definition synthesized (numColumns : nat) (row : list string) (d : Row)
  : Prop :=
  restkey d = None ∧
  dom (cells d) = list_to_set (generic_headers (numColumns `min` length row)) ∧
  ∀ i v, take numColumns row !! i = Some v →
         cells d !! column_name i = Some (Some v).

(** The keys of a row as the specification describes the [DictReader]
    path: the header names of the columns the record has a value for, and
    nothing else. *)
Definition keyed_as_claimed (fieldnames row : list string) (d : Row) : Prop :=
  row_keys d = list_to_set (Some <$> take (length row) fieldnames).

(** A world with one directory tree and the text of each file given by a
    function; the sniffer settles on the comma dialect or gives up, and the
    output file can be written. *)
Definition comma_dialect : Csv.Dialect :=
  {| Csv.delimiter := Csv.comma; Csv.quotechar := Csv.dquote;
     Csv.doublequote := false; Csv.skipinitialspace := false |}.

Definition world_of (t : Glob.Node) (text : Path → Exc string)
    (sniffed : bool) : World :=
  {| tree := t; glob_magic := λ _ _, []; open_read := text;
     sniff := λ _, if sniffed then Ok comma_dialect else Raise CsvError;
     timestamp := "2026-01-01_0000";
     open_write := λ _, Ok (); write_text := λ _ _, Ok () |}.

Definition newline : string := String Csv.LF EmptyString.

Definition a_file : Path := ["data"; "export.csv"].

(** A world whose every file holds the given text *)
Definition world_with_text (content : string) (sniffed : bool) : World :=
  world_of (Glob.Dir [("export.csv", Glob.File)]) (λ _, Ok content) sniffed.

(** A world whose files cannot be read *)
Definition world_unreadable : World :=
  world_of (Glob.Dir [("export.csv", Glob.File)]) (λ _, Raise OSError) false.

Definition row_ABC : Row :=
  {| cells := {[ "Column1" := Some "A"; "Column2" := Some "B";
                 "Column3" := Some "C" ]};
     restkey := None |}.

(** A header of two columns and one record with a single value *)
Definition text_short_record : string :=
  "a,b" +:+ newline +:+ "1" +:+ newline.

Definition row_short_record : Row :=
  {| cells := {[ "a" := Some "1"; "b" := None ]}; restkey := None |}.

(** A header of one column and one record with two values *)
Definition text_wide_record : string :=
  "a" +:+ newline +:+ "1,2" +:+ newline.

Definition row_wide_record : Row :=
  {| cells := {[ "a" := Some "1" ]}; restkey := Some ["2"] |}.

(** A consolidator that has discovered the one file [a_file] *)
Definition one_file_found : CsvConsolidator :=
  set_csvFiles [a_file] init.

(** The invariant of the specification: the keys of every consolidated row
    are among the headers collected so far. *)
Definition keys_within_headers (self : CsvConsolidator) : Prop :=
  ∀ row, row ∈ consolidatedData self →
         row_keys row ⊆ set_map Some (allHeaders self).

Definition row_blank3 : Row :=
  {| cells := {[ "Column1" := Some EmptyString;
                 "Column2" := Some EmptyString;
                 "Column3" := Some EmptyString ]};
     restkey := None |}.

(** No data record of the file is wider than its header record *)
Definition no_wide_record (w : World) (p : Path) : Prop :=
  ∀ content hdr rest,
    open_read w p = Ok content →
    Csv.reader (sniff_dialect w content) content = Ok (hdr :: rest) →
    ∀ row, row ∈ rest → length row ≤ length hdr.

(** *** Export *)

(** The output file can be opened, and takes whatever text is written *)
Definition output_writable (w : World) (self : CsvConsolidator) : Prop :=
  open_write w (outputPath w self) = Ok ()
  ∧ ∀ text, write_text w (outputPath w self) text = Ok ().

(** The line written for a row under the columns [cols] *)
Definition export_line (cols : list string) (row : Row) : string :=
  Csv.writerow ((λ c, Csv.cell_text (cells row !! c)) <$> cols).

(** The header line followed by one line per row, in order *)
Definition export_text (cols : list string) (rows : list Row) : string :=
  Csv.writerow cols +:+ PyStr.concat (export_line cols <$> rows).

Definition dataset_xy : CsvConsolidator :=
  {| companyName := "Contoso"; sourceDirectory := "data";
     includeSubdirectories := false; csvFiles := [];
     consolidatedData := [single_cell "x" "1"; single_cell "y" "2"];
     allHeaders := {[ "x"; "y" ]};
     processedCount := 2; errorCount := 0; errorFiles := [] |}.

(** A world in which the output file cannot be opened *)
Definition world_output_refused : World :=
  {| tree := Glob.Dir [("export.csv", Glob.File)];
     glob_magic := λ _ _, []; open_read := λ _, Raise OSError;
     sniff := λ _, Raise CsvError;
     timestamp := "2026-01-01_0000";
     open_write := λ _, Raise OSError; write_text := λ _ _, Ok () |}.

(** *** Discovery *)

(** What [glob] returns for the consolidator, before sorting *)
Definition globbed (w : World) (self : CsvConsolidator) : list Path :=
  glob_csv w (sourceDirectory self) (includeSubdirectories self).

(** The parts of the source directory *)
Definition root_parts (self : CsvConsolidator) : Path :=
  PyPath.parse (sourceDirectory self).

(** A directory holding [a.csv] next to a directory [a] that holds
    [b.csv] *)
Definition tree_file_beside_dir : Glob.Node :=
  Glob.Dir [ ("a.csv", Glob.File);
             ("a", Glob.Dir [("b.csv", Glob.File)]) ].

Definition world_file_beside_dir : World :=
  world_of tree_file_beside_dir (λ _, Raise OSError) false.

(** A directory listing [b.csv] before [a.csv], and a file of another
    kind *)
Definition world_b_before_a : World :=
  world_of (Glob.Dir [ ("b.csv", Glob.File); ("notes.txt", Glob.File);
                       ("a.csv", Glob.File) ])
           (λ _, Raise OSError) false.

(** A directory holding [a.csv], the hidden file [.hidden.csv] and the
    hidden directory [.archive] with [x.csv] *)
Definition world_hidden_entries : World :=
  world_of (Glob.Dir [ ("a.csv", Glob.File); (".hidden.csv", Glob.File);
                       (".archive", Glob.Dir [("x.csv", Glob.File)]) ])
           (λ _, Raise OSError) false.

(** The source directory [hashes[1]], holding [mine.csv], beside a
    directory [hashes1] holding [other.csv]. The patterns built from the
    name match the directory [hashes1], and [glob] returns
    [hashes1/other.csv] for them. *)
Definition world_bracket_directory : World :=
  {| tree := Glob.Dir [("mine.csv", Glob.File)];
     glob_magic := λ pattern _,
       if bool_decide (pattern = "hashes[1]/*.csv"
                       ∨ pattern = "hashes[1]/**/*.csv")
       then ["hashes1/other.csv"] else [];
     open_read := λ _, Raise OSError;
     sniff := λ _, Raise CsvError;
     timestamp := "2026-01-01_0000";
     open_write := λ _, Ok (); write_text := λ _ _, Ok () |}.

(** A consolidator pointed at the directory [hashes[1]] *)
Definition pointed_at_brackets (recursive : bool) : CsvConsolidator :=
  {| companyName := "Contoso"; sourceDirectory := "hashes[1]";
     includeSubdirectories := recursive; csvFiles := [];
     consolidatedData := []; allHeaders := ∅;
     processedCount := 0; errorCount := 0; errorFiles := [] |}.

(** The directory in which an earlier run has left its output file *)
Definition world_with_export : World :=
  world_of
    (Glob.Dir [ ("export.csv", Glob.File);
                ("Contoso_ConsolidatedHardwareHashes_2026-01-01_0000.csv",
                 Glob.File) ])
    (λ _, Raise OSError) false.

(** A directory without any [.csv] entry *)
Definition world_no_csv : World :=
  world_of (Glob.Dir [("notes.txt", Glob.File)]) (λ _, Raise OSError) false.

(** A consolidator pointed at the directory [data] *)
Definition pointed_at_data (recursive : bool) : CsvConsolidator :=
  {| companyName := "Contoso"; sourceDirectory := "data";
     includeSubdirectories := recursive; csvFiles := [];
     consolidatedData := []; allHeaders := ∅;
     processedCount := 0; errorCount := 0; errorFiles := [] |}.

(** The rows of [dataset_AABCCC] in the opposite order *)
Definition dataset_CCCBAA : CsvConsolidator :=
  {| companyName := companyName dataset_AABCCC;
     sourceDirectory := sourceDirectory dataset_AABCCC;
     includeSubdirectories := includeSubdirectories dataset_AABCCC;
     csvFiles := csvFiles dataset_AABCCC;
     consolidatedData := reverse (consolidatedData dataset_AABCCC);
     allHeaders := allHeaders dataset_AABCCC;
     processedCount := processedCount dataset_AABCCC;
     errorCount := errorCount dataset_AABCCC;
     errorFiles := errorFiles dataset_AABCCC |}.

(** *** Aggregation, file by file *)

(** What [consolidateFiles] takes from one file: its rows and headers, when
    the read succeeded and gave at least one row *)
Definition accepted (w : World) (p : Path)
  : option (list Row * list string) :=
  let '(data, headers, success) := readCsvFile w p in
  if success && bool_decide (data ≠ []) then Some (data, headers) else None.

(** The files of a list that [consolidateFiles] takes, and their yield *)
Definition yields (w : World) (files : list Path)
  : list (list Row * list string) := omap (accepted w) files.

(** The files of a list that [consolidateFiles] counts as errors *)
Definition rejected (w : World) (files : list Path) : list Path :=
  filter (λ p, ¬ is_Some (accepted w p)) files.

(** A blank line, then a header of two columns and one record *)
Definition text_blank_first_line : string :=
  newline +:+ "a,b" +:+ newline +:+ "1,2" +:+ newline.

(** *** Writing and reading back *)

(** The characters of a line fed to the reader one after the other *)
Definition run_chars (d : Csv.Dialect) (r : Csv.Reader) (cs : list ascii)
  : Exc Csv.Reader :=
  foldl (λ acc ch, r0 ← acc; Csv.parse_process_char d r0 (Some ch))
        (Ok r) cs.

(** A text without line break *)
Definition line_free (s : string) : Prop :=
  Forall (λ c, Csv.is_newline c = false) (PyStr.chars s).

(** A text no longer than the field size limit of the reader *)
Definition within_limit (s : string) : Prop :=
  (N.of_nat (String.length s) ≤ Csv.field_limit)%N.

(** A cell that fits on one line and in one field *)
Definition one_line_cell (s : string) : Prop := line_free s ∧ within_limit s.

(** The record [exportResults] writes for a row *)
Definition export_record (cols : list string) (row : Row) : list string :=
  (λ c, Csv.cell_text (cells row !! c)) <$> cols.

(** A text without the quote character *)
Definition quote_free (s : string) : Prop :=
  Forall (λ c, c ≠ Csv.dquote) (PyStr.chars s).

(** The dialects with the delimiter and the quote character of
    [csv.excel] that do not skip spaces: [csv.excel] itself, and what
    [csv.Sniffer] builds for a comma-separated sample, where [doublequote]
    is on only if the sample shows a doubled quote. *)
Definition comma_quote_dialect (doublequote : bool) : Csv.Dialect :=
  {| Csv.delimiter := Csv.comma; Csv.quotechar := Csv.dquote;
     Csv.doublequote := doublequote; Csv.skipinitialspace := false |}.

Definition reads_export (d : Csv.Dialect) : Prop :=
  Csv.delimiter d = Csv.comma ∧ Csv.quotechar d = Csv.dquote
  ∧ Csv.skipinitialspace d = false.

(** Every header and every cell of the dataset fits on one line and in
    one field *)
Definition one_line_cells (self : CsvConsolidator) : Prop :=
  (∀ h, h ∈ allHeaders self → one_line_cell h)
  ∧ ∀ row c v, row ∈ consolidatedData self →
               cells row !! c = Some (Some v) → one_line_cell v.

(** No header and no cell of the dataset holds the quote character *)
Definition quote_free_cells (self : CsvConsolidator) : Prop :=
  (∀ h, h ∈ allHeaders self → quote_free h)
  ∧ ∀ row c v, row ∈ consolidatedData self →
               cells row !! c = Some (Some v) → quote_free v.

(** The row a second ingestion gives for an exported row: every header is
    a key, and absent or [None] cells have become empty strings *)
Definition reingested (self : CsvConsolidator) (row row' : Row) : Prop :=
  restkey row' = None
  ∧ dom (cells row') = allHeaders self
  ∧ ∀ c, c ∈ allHeaders self →
         cells row' !! c = Some (Some (Csv.cell_text (cells row !! c))).

(** What [exportResults] writes for [dataset_xy] *)
Definition text_export_xy : string :=
  "x,y" +:+ Csv.lineterminator +:+ "1," +:+ Csv.lineterminator
  +:+ ",2" +:+ Csv.lineterminator.

(** A world in which the one file holds what [exportResults] wrote for
    [dataset_xy]; on that text the sniffer settles on the comma *)
Definition world_after_export : World :=
  world_with_text text_export_xy true.

(** *** Directory trees *)

(** A directory tree in which no directory lists a name twice *)
Inductive distinct_names : Glob.Node → Prop :=
  | distinct_File : distinct_names Glob.File
  | distinct_Dir entries :
      NoDup (entries.*1) →
      (∀ name sub, (name, sub) ∈ entries → distinct_names sub) →
      distinct_names (Glob.Dir entries).

(** *** File names *)

(** A character [sanitizedCompanyName] lets through unchanged *)
Definition file_name_char (c : ascii) : bool :=
  PyChar.isalnum c || bool_decide (c = "-"%char) || bool_decide (c = "_"%char).

(** ** Duplicate counting *)

(** The chain of [or] followed by the truth test picks the first non-empty
    candidate. *)
Lemma serialNumber_spec (row : Row) :
  match serialNumber row with
  | Some s => if truthy (Some s) then Some s else None
  | None => None
  end = spec_identifier row.
Proof.
  unfold serialNumber, spec_identifier, candidate_keys, py_or, row_get,
    nonempty_value.
  cbn [omap list_omap].
  generalize (cells row !! "Device Serial Number"),
    (cells row !! "Serial Number"), (cells row !! "DeviceSerialNumber").
  intros [[[|? s1]|]|] [[[|? s2]|]|] [[[|? s3]|]|]; reflexivity.
Qed.

Lemma serialNumbers_from (rows : list Row) (acc : list string) :
  foldl (λ acc row,
           match serialNumber row with
           | Some s => if truthy (Some s) then acc ++ [s] else acc
           | None => acc
           end) acc rows
  = acc ++ omap spec_identifier rows.
Proof.
  revert acc. induction rows as [|row rows IH]; intros acc; cbn [foldl].
  - by rewrite app_nil_r.
  - rewrite IH. cbn [omap list_omap]. rewrite <- serialNumber_spec.
    destruct (serialNumber row) as [s|]; [|done].
    destruct (truthy (Some s)); [|done].
    by rewrite <- app_assoc.
Qed.

Lemma serialNumbers_spec (rows : list Row) :
  serialNumbers rows = omap spec_identifier rows.
Proof. unfold serialNumbers. by rewrite serialNumbers_from. Qed.

Lemma occurrences_cons (l : list string) (a x : string) :
  occurrences (a :: l) x
  = (if decide (a = x) then 1 else 0) + occurrences l x.
Proof.
  unfold occurrences. rewrite filter_cons.
  by destruct (decide (a = x)).
Qed.

Lemma occurrences_pos (l : list string) (x : string) :
  0 < occurrences l x ↔ x ∈ l.
Proof.
  induction l as [|a l IH].
  - cbn. split; [lia | by intros ?%elem_of_nil].
  - rewrite occurrences_cons, elem_of_cons.
    destruct (decide (a = x)) as [->|Hne]; [split; [auto | lia]|].
    rewrite <- IH. split; [intros; right; lia | intros [?|?]; [congruence|lia]].
Qed.

(** What [Counter] holds after counting [l] on top of [c] *)
Lemma Counter_from (l : list string) (c : gmap string nat) (x : string) :
  foldl (λ c x, <[x := default 0 (c !! x) + 1]> c) c l !! x
  = if decide (occurrences l x = 0) then c !! x
    else Some (default 0 (c !! x) + occurrences l x).
Proof.
  revert c. induction l as [|a l IH]; intros c; cbn [foldl]; [done|].
  rewrite IH, occurrences_cons.
  destruct (decide (a = x)) as [->|Hne].
  - rewrite lookup_insert_eq. cbn [default]. unfold id.
    repeat case_decide; try lia; f_equal; lia.
  - rewrite lookup_insert_ne by done. cbn.
    destruct (decide (occurrences l x = 0)); done.
Qed.

Lemma Counter_lookup (l : list string) (x : string) (n : nat) :
  Counter l !! x = Some n ↔ n = occurrences l x ∧ 0 < n.
Proof.
  unfold Counter. rewrite Counter_from, lookup_empty. cbn [default].
  destruct (decide (occurrences l x = 0)); split.
  - done.
  - intros [-> ?]. lia.
  - intros [= <-]. lia.
  - intros [-> ?]. done.
Qed.

Lemma sum_list_perm (l1 l2 : list nat) :
  l1 ≡ₚ l2 → sum_list l1 = sum_list l2.
Proof. induction 1; cbn; lia. Qed.

(** The entries of [duplicates] are the repeated identifiers with their
    numbers of occurrences. *)
Lemma duplicates_entries (l : list string) :
  map_to_list (filter (λ kv : string * nat, 1 < kv.2) (Counter l))
  ≡ₚ (λ x, (x, occurrences l x)) <$> repeated l.
Proof.
  apply NoDup_Permutation.
  - apply NoDup_map_to_list.
  - apply NoDup_fmap_2_strong.
    + intros x y _ _ [= ->]. done.
    + apply NoDup_filter, NoDup_remove_dups.
  - intros [x n]. rewrite elem_of_map_to_list, map_lookup_filter_Some,
      Counter_lookup, list_elem_of_fmap. cbn. unfold repeated. split.
    + intros [[-> ?] ?]. exists x. split; [done|].
      apply list_elem_of_filter. split; [lia|].
      apply elem_of_remove_dups, occurrences_pos. lia.
    + intros (y & [= -> ->] & [? ?]%list_elem_of_filter). lia.
Qed.

Lemma checkDuplicates_value (self : CsvConsolidator) :
  (checkDuplicates self).1
  = spec_countDuplicates (serialNumbers (consolidatedData self)).
Proof.
  unfold checkDuplicates, gets, mbind, M_bind, mret, M_ret.
  destruct (serialNumbers (consolidatedData self)) as [|s l] eqn:E; [done|].
  cbn [fst]. unfold spec_countDuplicates.
  rewrite <- length_map_to_list.
  rewrite (sum_list_perm _ _ (fmap_Permutation snd _ _ (duplicates_entries (s :: l)))).
  rewrite (Permutation_length (duplicates_entries (s :: l))).
  rewrite <- list_fmap_compose, length_fmap. done.
Qed.

(** [C1] For every consolidated dataset, the identifier of a row is the
    first non-empty value under ["Device Serial Number"], ["Serial Number"],
    ["DeviceSerialNumber"], in that order, rows without one being skipped;
    [checkDuplicates] returns the sum of the numbers of occurrences of the
    identifiers that occur at least twice, minus the number of such
    identifiers. Identifiers A, A, B, C, C, C give 3, and no identifier at
    all gives 0. *)
Theorem checkDuplicates_counts_excess (self : CsvConsolidator) :
  let ids := omap spec_identifier (consolidatedData self) in
  serialNumbers (consolidatedData self) = ids ∧
  (checkDuplicates self).1 = spec_countDuplicates ids ∧
  (ids = ["A"; "A"; "B"; "C"; "C"; "C"] → (checkDuplicates self).1 = 3%Z) ∧
  (ids = [] → (checkDuplicates self).1 = 0%Z).
Proof.
  intros ids. subst ids.
  rewrite checkDuplicates_value, serialNumbers_spec.
  repeat split.
  - intros ->. vm_compute. reflexivity.
  - intros ->. reflexivity.
Qed.

Lemma checkDuplicates_counts_excess_witness :
  omap spec_identifier (consolidatedData dataset_AABCCC)
    = ["A"; "A"; "B"; "C"; "C"; "C"]
  ∧ (checkDuplicates dataset_AABCCC).1 = 3%Z.
Proof.
  split; [vm_compute; reflexivity|].
  apply (checkDuplicates_counts_excess dataset_AABCCC).
  vm_compute. reflexivity.
Defined.

(** [C9] [checkDuplicates] is read-only: it leaves every attribute of the
    consolidator, among them the consolidated rows, the header set, the
    counters and the list of failed files, as it found them. *)
Theorem checkDuplicates_read_only (self : CsvConsolidator) :
  (checkDuplicates self).2 = self
  ∧ consolidatedData (checkDuplicates self).2 = consolidatedData self
  ∧ allHeaders (checkDuplicates self).2 = allHeaders self
  ∧ processedCount (checkDuplicates self).2 = processedCount self
  ∧ errorCount (checkDuplicates self).2 = errorCount self
  ∧ errorFiles (checkDuplicates self).2 = errorFiles self.
Proof.
  assert ((checkDuplicates self).2 = self) as ->; [|done].
  unfold checkDuplicates, gets, mbind, M_bind, mret, M_ret.
  by destruct (serialNumbers (consolidatedData self)).
Qed.

(** ** Ingestion *)

(** *** Whitespace *)

Lemma strip_empty_all_space (s : string) :
  PyStr.is_empty (PyStr.strip s) = PyStr.all_space s.
Proof.
  unfold PyStr.strip. induction s as [|c s IH]; [done|].
  cbn [PyStr.lstrip PyStr.all_space].
  destruct (PyStr.isspace c) eqn:Hc; [done|].
  cbn [PyStr.rstrip]. rewrite Hc, andb_false_r. done.
Qed.

(** *** Generic headers *)

Global Instance column_name_inj : Inj (=) (=) column_name.
Proof.
  intros i j H. unfold column_name in H.
  apply (inj (String.app "Column")) in H.
  apply (inj pretty) in H. lia.
Qed.

Lemma generic_headers_lookup (n i : nat) :
  i < n → generic_headers n !! i = Some (column_name i).
Proof.
  intros Hi. unfold generic_headers.
  by rewrite list_lookup_fmap, lookup_seq_lt.
Qed.

Lemma generic_headers_length (n : nat) : length (generic_headers n) = n.
Proof. unfold generic_headers. by rewrite length_fmap, length_seq. Qed.

Lemma elem_of_generic_headers (n : nat) (k : string) :
  k ∈ generic_headers n ↔ ∃ i, i < n ∧ k = column_name i.
Proof.
  unfold generic_headers. rewrite list_elem_of_fmap.
  split.
  - intros (i & -> & Hi%elem_of_seq). exists i. split; [lia|done].
  - intros (i & Hi & ->). exists i. split; [done|]. apply elem_of_seq. lia.
Qed.

Lemma enumerate_snoc {A} (l : list A) (x : A) :
  enumerate (l ++ [x]) = enumerate l ++ [(length l, x)].
Proof.
  unfold enumerate. rewrite imap_app. cbn. by rewrite Nat.add_0_r.
Qed.

(** *** The inner loop *)

Lemma make_rowDict_loop (n : nat) (l : list string) :
  length l ≤ n →
  ∃ d, foldl (λ acc iv,
                rowDict ← acc;
                key ← py_index (generic_headers n) iv.1;
                Ok (row_set key (Some iv.2) rowDict))
             (Ok empty_row) (enumerate l) = Ok d
       ∧ restkey d = None
       ∧ dom (cells d) = list_to_set (generic_headers (length l))
       ∧ ∀ i v, l !! i = Some v → cells d !! column_name i = Some (Some v).
Proof.
  induction l as [|x l IH] using rev_ind; intros Hlen.
  - exists empty_row. cbn. split_and!; [done..| |done].
    by rewrite dom_empty_L.
  - rewrite length_app in Hlen. cbn in Hlen.
    destruct IH as (d & Hd & Hrest & Hdom & Hget); [lia|].
    rewrite enumerate_snoc, foldl_app. cbn [foldl]. rewrite Hd.
    cbn [mbind Exc_bind fst snd]. unfold py_index.
    rewrite generic_headers_lookup by lia.
    eexists. split; [reflexivity|]. cbn [row_set restkey cells].
    split_and!; [done| |].
    + rewrite dom_insert_L, Hdom, length_app. cbn.
      replace (length l + 1) with (S (length l)) by lia.
      unfold generic_headers. rewrite seq_S, fmap_app, list_to_set_app_L.
      cbn. rewrite union_empty_r_L. apply union_comm_L.
    + intros i v Hi. destruct (decide (i = length l)) as [->|Hne].
      * rewrite lookup_insert_eq.
        rewrite lookup_app_r, Nat.sub_diag in Hi by lia.
        by injection Hi as ->.
      * rewrite lookup_insert_ne by (intros ?%(inj column_name); lia).
        apply Hget. apply lookup_lt_Some in Hi as Hlt.
        rewrite length_app in Hlt. cbn in Hlt.
        by rewrite lookup_app_l in Hi by lia.
Qed.

Lemma make_rowDict_synthesized (n : nat) (row : list string) :
  ∃ d, make_rowDict (generic_headers n) n row = Ok d ∧ synthesized n row d.
Proof.
  destruct (make_rowDict_loop n (take n row)) as (d & Hd & Hrest & Hdom & Hget).
  { rewrite length_take. lia. }
  exists d. split; [exact Hd|]. split_and!; [done| |done].
  by rewrite Hdom, length_take.
Qed.

(** *** The outer loop: one row per non-blank record, in order *)

Lemma rows_to_dicts_from (n : nat) (rows : list (list string))
    (acc : list Row) :
  ∃ data,
    foldl (λ acc row,
             data ← acc;
             match row with
             | [] => Ok data
             | _ :: _ =>
                 rowDict ← make_rowDict (generic_headers n) n row;
                 Ok (data ++ [rowDict])
             end)
          (Ok acc) rows = Ok (acc ++ data)
    ∧ Forall2 (synthesized n) (filter (λ row, row ≠ []) rows) data.
Proof.
  revert acc. induction rows as [|row rows IH]; intros acc.
  - exists []. cbn. by rewrite app_nil_r.
  - cbn [foldl mbind Exc_bind]. destruct row as [|f row].
    + destruct (IH acc) as (data & Hdata & Hall).
      exists data. split; [done|]. by rewrite filter_cons_False by naive_solver.
    + destruct (make_rowDict_synthesized n (f :: row)) as (d & Hd & Hsyn).
      rewrite Hd. cbn [mbind Exc_bind].
      destruct (IH (acc ++ [d])) as (data & Hdata & Hall).
      exists (d :: data). split.
      * by rewrite Hdata, <- app_assoc.
      * rewrite filter_cons_True by done. by constructor.
Qed.

Lemma rows_to_dicts_synthesized (n : nat) (rows : list (list string)) :
  ∃ data, rows_to_dicts (generic_headers n) n rows = Ok data
          ∧ Forall2 (synthesized n) (filter (λ row, row ≠ []) rows) data.
Proof. apply (rows_to_dicts_from n rows []). Qed.

Lemma headerless_synthesized (first : list string)
    (rest : list (list string)) :
  ∃ data,
    headerless (first :: rest)
    = Ok (Some (data, generic_headers (length first), true))
    ∧ Forall2 (synthesized (length first))
              (filter (λ row, row ≠ []) (first :: rest)) data.
Proof.
  destruct (rows_to_dicts_synthesized (length first) (first :: rest))
    as (data & Hdata & Hall).
  exists data. split; [|done].
  unfold headerless. by rewrite Hdata.
Qed.

(** A synthesized row is determined by the record. *)
Lemma synthesized_lookup (n : nat) (row : list string) (d : Row) (i : nat) :
  synthesized n row d →
  cells d !! column_name i = Some <$> take n row !! i.
Proof.
  intros (_ & Hdom & Hget).
  destruct (take n row !! i) as [v|] eqn:Hi; [by apply Hget|].
  cbn. apply not_elem_of_dom. rewrite Hdom, elem_of_list_to_set,
    elem_of_generic_headers.
  intros (j & Hj & ->%(inj column_name)).
  apply lookup_ge_None in Hi. rewrite length_take in Hi. lia.
Qed.

Lemma synthesized_keys (n : nat) (row : list string) (d : Row) (k : string) :
  synthesized n row d →
  is_Some (cells d !! k) →
  ∃ i v, k = column_name i ∧ i < n ∧ row !! i = Some v
         ∧ cells d !! k = Some (Some v).
Proof.
  intros Hsyn Hk. pose proof Hsyn as (_ & Hdom & Hget).
  apply elem_of_dom in Hk. rewrite Hdom, elem_of_list_to_set,
    elem_of_generic_headers in Hk.
  destruct Hk as (i & Hi & ->).
  destruct (lookup_lt_is_Some_2 row i) as [v Hv]; [lia|].
  exists i, v. split_and!; [done|lia|done|].
  apply Hget. rewrite lookup_take_lt by lia. done.
Qed.

(** *** [readCsvFile] on a readable, non-blank file *)

Lemma readCsvFile_text (w : World) (p : Path) (content : string) :
  open_read w p = Ok content →
  PyStr.all_space content = false →
  readCsvFile w p
  = match read_with_dialect (sniff_dialect w content) content with
    | Ok out => out
    | Raise _ => failure
    end.
Proof.
  intros Hopen Hsp. unfold readCsvFile, readCsvFile_try.
  rewrite Hopen. cbn [mbind Exc_bind].
  by rewrite strip_empty_all_space, Hsp.
Qed.

(** A file whose first record is not blank and which has no further
    non-blank record goes through the headerless block. *)
Lemma read_with_dialect_header_only (d : Csv.Dialect) (content : string)
    (hdr : list string) (rest : list (list string)) :
  Csv.reader d content = Ok (hdr :: rest) →
  hdr ≠ [] →
  Csv.DictReader_rows (hdr :: rest) = [] →
  ∃ row,
    read_with_dialect d content
    = Ok ([row], generic_headers (length hdr), true)
    ∧ synthesized (length hdr) hdr row
    ∧ filter (λ r, r ≠ []) (hdr :: rest) = [hdr].
Proof.
  intros Hread Hhdr Hnone.
  assert (filter (λ r : list string, r ≠ []) rest = []) as Hblank.
  { cbn in Hnone. by apply fmap_nil_inv in Hnone. }
  destruct (headerless_synthesized hdr rest) as (data & Hdata & Hall).
  rewrite filter_cons_True, Hblank in Hall by done.
  apply Forall2_cons_inv_l in Hall as (row & data' & Hrow & ->%Forall2_nil_inv_l & ->).
  exists row. split_and!; [|done|by rewrite filter_cons_True, Hblank].
  unfold read_with_dialect. rewrite Hread. cbn [mbind Exc_bind].
  unfold Csv.DictReader_fieldnames. cbn [head].
  destruct hdr as [|h hdr]; [done|].
  rewrite Hnone, Hdata. done.
Qed.

(** [C8] [readCsvFile] never propagates an exception: when the text is
    empty or all whitespace, when opening, reading or decoding the file
    fails, or when the [csv] reader raises while parsing, it returns the
    failure outcome [([], [], False)]; and so does any other exception of
    the [try] body. *)
Theorem readCsvFile_swallows_errors (w : World) (p : Path) :
  (∀ content, open_read w p = Ok content →
              PyStr.all_space content = true →
              readCsvFile w p = failure)
  ∧ (∀ e, open_read w p = Raise e → readCsvFile w p = failure)
  ∧ (∀ content e, open_read w p = Ok content →
                  Csv.reader (sniff_dialect w content) content = Raise e →
                  readCsvFile w p = failure)
  ∧ (∀ e, readCsvFile_try w p = Raise e → readCsvFile w p = failure).
Proof.
  split_and!.
  - intros content Hopen Hsp. unfold readCsvFile, readCsvFile_try.
    rewrite Hopen. cbn [mbind Exc_bind].
    by rewrite strip_empty_all_space, Hsp.
  - intros e Hopen. unfold readCsvFile, readCsvFile_try. by rewrite Hopen.
  - intros content e Hopen Hread.
    unfold readCsvFile, readCsvFile_try. rewrite Hopen. cbn [mbind Exc_bind].
    destruct (PyStr.is_empty _); [done|].
    unfold read_with_dialect. by rewrite Hread.
  - intros e Htry. unfold readCsvFile. by rewrite Htry.
Qed.

Lemma readCsvFile_swallows_errors_witness :
  readCsvFile (world_with_text (" " +:+ newline) false) a_file = failure
  ∧ readCsvFile world_unreadable a_file = failure.
Proof.
  split.
  - apply (readCsvFile_swallows_errors
             (world_with_text (" " +:+ newline) false) a_file)
      with (content := " " +:+ newline); reflexivity.
  - apply (readCsvFile_swallows_errors world_unreadable a_file)
      with (e := OSError); reflexivity.
Defined.

(** [C4] A file whose header parse yields column names but no data row is
    read again as headerless: every record, the first included, is data
    under the names Column1..ColumnN, N being the width of the first
    record. Such a file yields exactly one row, holding the fields of its
    first record. In the headerless block a record wider than N loses its
    excess values and a narrower one fills only the columns it has. A file
    holding only [A,B,C] yields the single row
    [{Column1: A, Column2: B, Column3: C}]. *)
Theorem header_only_file_reread_headerless
    (w : World) (p : Path) (content : string)
    (hdr : list string) (rest : list (list string)) :
  open_read w p = Ok content →
  PyStr.all_space content = false →
  Csv.reader (sniff_dialect w content) content = Ok (hdr :: rest) →
  hdr ≠ [] →
  Csv.DictReader_rows (hdr :: rest) = [] →
  (∃ row, readCsvFile w p = ([row], generic_headers (length hdr), true)
          ∧ Forall2 (synthesized (length hdr))
                    (filter (λ r, r ≠ []) (hdr :: rest)) [row]
          ∧ ∀ i v, hdr !! i = Some v →
                   cells row !! column_name i = Some (Some v))
  ∧ (∀ first others, ∃ data,
        headerless (first :: others)
        = Ok (Some (data, generic_headers (length first), true))
        ∧ Forall2 (synthesized (length first))
                  (filter (λ r, r ≠ []) (first :: others)) data)
  ∧ (∀ n row d i, synthesized n row d →
        (i < n → i < length row → cells d !! column_name i = Some <$> row !! i)
        ∧ (n ≤ i → cells d !! column_name i = None)
        ∧ (length row ≤ i → cells d !! column_name i = None))
  ∧ (∀ w' p', open_read w' p' = Ok "A,B,C" →
        Csv.delimiter (sniff_dialect w' "A,B,C") = Csv.comma →
        Csv.quotechar (sniff_dialect w' "A,B,C") = Csv.dquote →
        readCsvFile w' p' = ([row_ABC], ["Column1"; "Column2"; "Column3"], true)).
Proof.
  intros Hopen Hsp Hread Hhdr Hnone. split_and!.
  - destruct (read_with_dialect_header_only _ _ _ _ Hread Hhdr Hnone)
      as (row & Hrow & Hsyn & Hfilter).
    exists row. rewrite (readCsvFile_text _ _ _ Hopen Hsp), Hrow, Hfilter.
    split_and!; [done|by constructor|].
    intros i v Hi. destruct Hsyn as (_ & _ & Hget). apply Hget.
    rewrite lookup_take_lt; [done|]. by apply lookup_lt_Some in Hi.
  - intros first others. apply headerless_synthesized.
  - intros n row d i Hsyn. rewrite (synthesized_lookup _ _ _ i Hsyn).
    split_and!.
    + intros ? ?. by rewrite lookup_take_lt.
    + intros ?. rewrite lookup_take_ge; done.
    + intros ?. rewrite (proj2 (lookup_ge_None _ _)); [done|].
      rewrite length_take. lia.
  - intros w' p' Hopen' Hdelim Hquote.
    rewrite (readCsvFile_text _ _ _ Hopen') by reflexivity.
    destruct (sniff_dialect w' "A,B,C") as [dl qc dq sk].
    cbn in Hdelim, Hquote. subst dl qc.
    destruct dq, sk; vm_compute; reflexivity.
Qed.

Lemma header_only_file_reread_headerless_witness :
  readCsvFile (world_with_text "A,B,C" true) a_file
  = ([row_ABC], ["Column1"; "Column2"; "Column3"], true).
Proof.
  destruct (header_only_file_reread_headerless
              (world_with_text "A,B,C" true) a_file "A,B,C"
              ["A"; "B"; "C"] []) as (_ & _ & _ & Hex);
    [reflexivity | reflexivity | vm_compute; reflexivity
    | discriminate | reflexivity |].
  apply (Hex (world_with_text "A,B,C" true) a_file); reflexivity.
Defined.

(** [C10] In the headerless block only the records with no field at all
    are skipped: the rows produced are, in order, those of the records that
    are not blank. A record whose fields are all empty is kept, and every
    key of its row, Column1 up to the smaller of N and its width, maps to
    the empty string. The line [,,] parses to three empty fields, and a
    file holding only that line yields the row
    [{Column1: '', Column2: '', Column3: ''}]. *)
Theorem headerless_skips_only_blank_records :
  (∀ first others, ∃ data,
      headerless (first :: others)
      = Ok (Some (data, generic_headers (length first), true))
      ∧ Forall2 (synthesized (length first))
                (filter (λ r, r ≠ []) (first :: others)) data
      ∧ length data = length (filter (λ r, r ≠ []) (first :: others)))
  ∧ (∀ n row d, synthesized n row d →
        Forall (λ v, v = EmptyString) row →
        dom (cells d) = list_to_set (generic_headers (n `min` length row))
        ∧ ∀ k, k ∈ dom (cells d) → cells d !! k = Some (Some EmptyString))
  ∧ Csv.reader comma_dialect ",," = Ok [[EmptyString; EmptyString; EmptyString]]
  ∧ Csv.reader Csv.excel ",," = Ok [[EmptyString; EmptyString; EmptyString]]
  ∧ (∀ w p, open_read w p = Ok ",," →
        Csv.delimiter (sniff_dialect w ",,") = Csv.comma →
        Csv.quotechar (sniff_dialect w ",,") = Csv.dquote →
        readCsvFile w p
        = ([row_blank3], ["Column1"; "Column2"; "Column3"], true)).
Proof.
  split_and!.
  - intros first others.
    destruct (headerless_synthesized first others) as (data & Hdata & Hall).
    exists data. split_and!; [done..|].
    symmetry. by eapply Forall2_length.
  - intros n row d Hsyn Hall. split; [apply Hsyn|].
    intros k Hk%elem_of_dom.
    destruct (synthesized_keys _ _ _ _ Hsyn Hk) as (i & v & -> & _ & Hv & ->).
    rewrite Forall_lookup in Hall. by rewrite (Hall _ _ Hv).
  - vm_compute. reflexivity.
  - vm_compute. reflexivity.
  - intros w p Hopen Hdelim Hquote.
    rewrite (readCsvFile_text _ _ _ Hopen) by reflexivity.
    destruct (sniff_dialect w ",,") as [dl qc dq sk].
    cbn in Hdelim, Hquote. subst dl qc.
    destruct dq, sk; vm_compute; reflexivity.
Qed.

Lemma headerless_skips_only_blank_records_witness :
  readCsvFile (world_with_text ",," true) a_file
  = ([row_blank3], ["Column1"; "Column2"; "Column3"], true).
Proof.
  destruct headerless_skips_only_blank_records as (_ & _ & _ & _ & Hex).
  apply (Hex (world_with_text ",," true) a_file); reflexivity.
Defined.

(** *** Rows built by [csv.DictReader] *)

Lemma zip_insert_notin (ks vs : list string) (m : gmap string (option string))
    (k : string) :
  k ∉ ks →
  foldl (λ m kv, <[kv.1 := Some kv.2]> m) m (zip ks vs) !! k = m !! k.
Proof.
  revert vs m. induction ks as [|k0 ks IH]; intros vs m Hk; [done|].
  destruct vs as [|v0 vs]; [done|]. cbn [zip zip_with foldl fst snd].
  apply not_elem_of_cons in Hk as [Hne Hk].
  rewrite IH by done. by rewrite lookup_insert_ne.
Qed.

Lemma zip_insert_lookup (ks vs : list string) (m : gmap string (option string))
    (i : nat) (k v : string) :
  ks !! i = Some k → vs !! i = Some v → k ∉ drop (S i) ks →
  foldl (λ m kv, <[kv.1 := Some kv.2]> m) m (zip ks vs) !! k = Some (Some v).
Proof.
  revert vs m i. induction ks as [|k0 ks IH]; intros vs m i Hk Hv Hlast;
    [done|].
  destruct vs as [|v0 vs]; [done|]. cbn [zip zip_with foldl fst snd].
  destruct i as [|i]; cbn in Hk, Hv, Hlast.
  - injection Hk as ->. injection Hv as ->.
    rewrite zip_insert_notin by (by rewrite drop_0 in Hlast).
    by rewrite lookup_insert_eq.
  - by apply (IH vs _ i).
Qed.

Lemma zip_insert_dom (ks vs : list string) (m : gmap string (option string)) :
  dom (foldl (λ m kv, <[kv.1 := Some kv.2]> m) m (zip ks vs))
  = dom m ∪ list_to_set (take (length vs) ks).
Proof.
  revert vs m. induction ks as [|k0 ks IH]; intros vs m.
  - rewrite take_nil. cbn. by rewrite union_empty_r_L.
  - destruct vs as [|v0 vs]; cbn [zip zip_with foldl fst snd length take].
    + cbn. by rewrite union_empty_r_L.
    + rewrite IH, dom_insert_L. cbn [list_to_set].
      rewrite (union_comm_L {[k0]} (dom m)). by rewrite <- union_assoc_L.
Qed.

Lemma restval_fill_lookup (keys : list string)
    (m : gmap string (option string)) (k : string) :
  foldl (λ m key, <[key := None]> m) m keys !! k
  = if decide (k ∈ keys) then Some None else m !! k.
Proof.
  revert m. induction keys as [|k0 keys IH]; intros m; cbn [foldl].
  - by rewrite decide_False by apply not_elem_of_nil.
  - rewrite IH. destruct (decide (k ∈ keys)) as [Hin|Hnin].
    + by rewrite decide_True by (by right).
    + destruct (decide (k0 = k)) as [->|Hne].
      * rewrite lookup_insert_eq. by rewrite decide_True by left.
      * rewrite lookup_insert_ne by done.
        by rewrite decide_False by (intros [?|?]%elem_of_cons; congruence).
Qed.

Lemma restval_fill_dom (keys : list string) (m : gmap string (option string)) :
  dom (foldl (λ m key, <[key := None]> m) m keys) = dom m ∪ list_to_set keys.
Proof.
  revert m. induction keys as [|k0 keys IH]; intros m; cbn [foldl].
  - cbn. by rewrite union_empty_r_L.
  - rewrite IH, dom_insert_L. cbn [list_to_set].
    rewrite (union_comm_L {[k0]} (dom m)). by rewrite <- union_assoc_L.
Qed.

(** A record that is not wider than the header *)
Lemma DictReader_row_fits (fieldnames row : list string) :
  length row ≤ length fieldnames →
  Csv.DictReader_row fieldnames row
  = {| cells := foldl (λ m key, <[key := None]> m)
                  (foldl (λ m kv, <[kv.1 := Some kv.2]> m) ∅
                         (zip fieldnames row))
                  (drop (length row) fieldnames);
       restkey := None |}.
Proof.
  intros Hlen. unfold Csv.DictReader_row.
  destruct (length fieldnames <? length row) eqn:E1.
  { apply Nat.ltb_lt in E1. lia. }
  destruct (length row <? length fieldnames) eqn:E2; [done|].
  apply Nat.ltb_ge in E2. by rewrite drop_ge by lia.
Qed.

Lemma DictReader_row_fits_spec (fieldnames row : list string) :
  length row ≤ length fieldnames →
  let d := Csv.DictReader_row fieldnames row in
  restkey d = None
  ∧ dom (cells d) = list_to_set fieldnames
  ∧ (∀ k, k ∈ drop (length row) fieldnames → cells d !! k = Some None)
  ∧ (∀ i k v, fieldnames !! i = Some k → row !! i = Some v →
              k ∉ drop (S i) fieldnames → cells d !! k = Some (Some v)).
Proof.
  intros Hlen d. subst d. rewrite DictReader_row_fits by done.
  cbn [cells restkey]. split_and!.
  - done.
  - rewrite restval_fill_dom, zip_insert_dom, dom_empty_L, union_empty_l_L.
    by rewrite <- list_to_set_app_L, take_drop.
  - intros k Hk. by rewrite restval_fill_lookup, decide_True.
  - intros i k v Hk Hv Hlast. rewrite restval_fill_lookup.
    apply lookup_lt_Some in Hv as Hi.
    rewrite decide_False.
    + by eapply zip_insert_lookup.
    + intros Hin. apply Hlast.
      replace (length row) with (S i + (length row - S i)) in Hin by lia.
      rewrite <- drop_drop in Hin. by eapply subseteq_drop.
Qed.

(** A file with a non-blank first record and at least one further
    non-blank record goes through [csv.DictReader]. *)
Lemma read_with_dialect_header_and_data (d : Csv.Dialect) (content : string)
    (hdr : list string) (rest : list (list string)) :
  Csv.reader d content = Ok (hdr :: rest) →
  hdr ≠ [] →
  filter (λ r, r ≠ []) rest ≠ [] →
  read_with_dialect d content
  = Ok (Csv.DictReader_row hdr <$> filter (λ r, r ≠ []) rest, hdr, true).
Proof.
  intros Hread Hhdr Hdata.
  unfold read_with_dialect. rewrite Hread. cbn [mbind Exc_bind].
  unfold Csv.DictReader_fieldnames. cbn [head].
  destruct hdr as [|h hdr]; [done|].
  cbn [Csv.DictReader_rows].
  destruct (filter _ rest) as [|r rs]; [done|]. done.
Qed.

(** [C2] For every file whose header parse yields a non-empty
    list of column names and at least one data row, [readCsvFile] returns
    the header names and one row per non-blank data record, in order. A
    record with no more values than the header becomes a row keyed exactly
    by the header names. A name that occurs at a position the record has
    no value for holds the placeholder [None]; any other name holds the
    value at the last position where it occurs in the header. So, when the
    header names are distinct, each column holds the value at its position
    and the trailing columns the record has no value for are present with
    [None]. (Nothing is said of records wider than the header.) *)
Theorem header_file_rows_keyed_by_header
    (w : World) (p : Path) (content : string)
    (hdr : list string) (rest : list (list string)) :
  open_read w p = Ok content →
  PyStr.all_space content = false →
  Csv.reader (sniff_dialect w content) content = Ok (hdr :: rest) →
  hdr ≠ [] →
  filter (λ r, r ≠ []) rest ≠ [] →
  readCsvFile w p
  = (Csv.DictReader_row hdr <$> filter (λ r, r ≠ []) rest, hdr, true)
  ∧ ∀ row, row ∈ filter (λ r, r ≠ []) rest →
           length row ≤ length hdr →
           let d := Csv.DictReader_row hdr row in
           row_keys d = list_to_set (Some <$> hdr)
           ∧ (∀ k, k ∈ drop (length row) hdr → cells d !! k = Some None)
           ∧ (∀ i k v, hdr !! i = Some k → row !! i = Some v →
                       k ∉ drop (S i) hdr → cells d !! k = Some (Some v))
           ∧ (NoDup hdr →
              ∀ i k v, hdr !! i = Some k → row !! i = Some v →
                       cells d !! k = Some (Some v)).
Proof.
  intros Hopen Hsp Hread Hhdr Hdata. split.
  - rewrite (readCsvFile_text _ _ _ Hopen Hsp).
    by rewrite (read_with_dialect_header_and_data _ _ _ _ Hread Hhdr Hdata).
  - intros row _ Hlen d.
    destruct (DictReader_row_fits_spec hdr row Hlen)
      as (Hrest & Hdom & Hfill & Hval).
    split_and!; [|done..|].
    2:{ intros Hnd i k v Hk Hv. apply (Hval i); [done..|].
        intros Hin. apply list_elem_of_lookup in Hin as [j Hj].
        rewrite lookup_drop in Hj.
        pose proof (NoDup_lookup _ _ _ _ Hnd Hk Hj). lia. }
    subst d. unfold row_keys. rewrite Hrest, Hdom, union_empty_r_L.
    apply set_eq. intros k.
    rewrite elem_of_map, elem_of_list_to_set, list_elem_of_fmap.
    setoid_rewrite elem_of_list_to_set. done.
Qed.

Lemma header_file_rows_keyed_by_header_witness :
  readCsvFile (world_with_text text_short_record false) a_file
  = ([row_short_record], ["a"; "b"], true).
Proof.
  destruct (header_file_rows_keyed_by_header
              (world_with_text text_short_record false) a_file
              text_short_record ["a"; "b"] [["1"]]) as [Hout _];
    [reflexivity | reflexivity | vm_compute; reflexivity
    | discriminate | discriminate |].
  rewrite Hout. vm_compute. reflexivity.
Defined.

(** Against [C2] as the specification words it: for the header [a,b] and
    the record [1], the column [b], for which the record has no value, is a
    key of the row, with the value [None]. *)
Lemma short_record_keeps_missing_columns :
  readCsvFile (world_with_text text_short_record false) a_file
  = ([row_short_record], ["a"; "b"], true)
  ∧ cells row_short_record !! "b" = Some None
  ∧ ¬ keyed_as_claimed ["a"; "b"] ["1"] row_short_record.
Proof.
  split_and!; [vm_compute; reflexivity | vm_compute; reflexivity |].
  unfold keyed_as_claimed. intros Heq.
  assert (Some "b" ∈ row_keys row_short_record) as Hin.
  { unfold row_keys. apply elem_of_union_l, elem_of_map.
    exists "b". split; [done|]. apply elem_of_dom. by eexists. }
  rewrite Heq in Hin. cbn in Hin.
  apply elem_of_union in Hin as [Hin%elem_of_singleton|Hin%elem_of_empty];
    [discriminate|done].
Qed.

(** ** Aggregation *)

Lemma read_with_dialect_cases (d : Csv.Dialect) (content : string) :
  match Csv.reader d content with
  | Raise e => read_with_dialect d content = Raise e
  | Ok [] => read_with_dialect d content = Ok failure
  | Ok (hdr :: rest) =>
      (hdr ≠ [] ∧ filter (λ r, r ≠ []) rest ≠ []
       ∧ read_with_dialect d content
         = Ok (Csv.DictReader_row hdr <$> filter (λ r, r ≠ []) rest,
               hdr, true))
      ∨ (∃ data,
           read_with_dialect d content
           = Ok (data, generic_headers (length hdr), true)
           ∧ Forall2 (synthesized (length hdr))
                     (filter (λ r, r ≠ []) (hdr :: rest)) data)
  end.
Proof.
  destruct (Csv.reader d content) as [[|hdr rest]|e] eqn:Hread.
  - unfold read_with_dialect. by rewrite Hread.
  - destruct (headerless_synthesized hdr rest) as (data & Hdata & Hall).
    destruct (decide (hdr ≠ [] ∧ filter (λ r, r ≠ []) rest ≠ []))
      as [[Hhdr Hrest]|Hno].
    + left. split_and!; [done..|].
      by apply read_with_dialect_header_and_data.
    + right. exists data. split; [|done].
      unfold read_with_dialect. rewrite Hread. cbn [mbind Exc_bind].
      unfold Csv.DictReader_fieldnames. cbn [head].
      destruct hdr as [|h hdr]; [by rewrite Hdata|].
      cbn [Csv.DictReader_rows].
      destruct (filter _ rest) as [|r rs] eqn:Hf.
      * cbn [fmap list_fmap]. by rewrite Hdata.
      * exfalso. apply Hno. done.
  - unfold read_with_dialect. by rewrite Hread.
Qed.

Lemma synthesized_keys_within (n : nat) (row : list string) (d : Row) :
  synthesized n row d →
  row_keys d ⊆ list_to_set (Some <$> generic_headers n).
Proof.
  intros (Hrest & Hdom & _) k. unfold row_keys.
  rewrite Hrest, Hdom, union_empty_r_L, elem_of_map, elem_of_list_to_set.
  intros (key & -> & Hkey). apply list_elem_of_fmap. exists key.
  split; [done|].
  apply elem_of_list_to_set, elem_of_generic_headers in Hkey
    as (i & Hi & ->).
  apply elem_of_generic_headers. exists i. split; [lia|done].
Qed.

(** When no record is wider than the header, the rows a file yields have
    their keys among the headers it yields. *)
Lemma readCsvFile_keys_within (w : World) (p : Path)
    (data : list Row) (headers : list string) :
  no_wide_record w p →
  readCsvFile w p = (data, headers, true) →
  ∀ row, row ∈ data → row_keys row ⊆ list_to_set (Some <$> headers).
Proof.
  intros Hfit. unfold readCsvFile, readCsvFile_try.
  destruct (open_read w p) as [content|e] eqn:Hopen; [|done].
  cbn [mbind Exc_bind]. destruct (PyStr.is_empty _); [done|].
  pose proof (read_with_dialect_cases (sniff_dialect w content) content)
    as Hcases.
  destruct (Csv.reader _ content) as [[|hdr rest]|e] eqn:Hread.
  - by rewrite Hcases.
  - destruct Hcases as [(Hhdr & Hrest & ->)|(rows & -> & Hall)].
    + intros [= <- <-] row (r & -> & Hr)%list_elem_of_fmap.
      apply list_elem_of_filter in Hr as [_ Hr].
      destruct (DictReader_row_fits_spec hdr r) as (Hnone & Hdom & _).
      { by eapply Hfit. }
      intros k. unfold row_keys.
      rewrite Hnone, Hdom, union_empty_r_L, elem_of_map, elem_of_list_to_set.
      intros (key & -> & Hkey%elem_of_list_to_set).
      apply list_elem_of_fmap. by exists key.
    + intros [= <- <-] row Hrow.
      apply list_elem_of_lookup in Hrow as [i Hi].
      destruct (Forall2_lookup_r _ _ _ _ _ Hall Hi) as (r & _ & Hsyn).
      by eapply synthesized_keys_within.
  - by rewrite Hcases.
Qed.

Lemma keys_within_headers_success (self : CsvConsolidator)
    (data : list Row) (headers : list string) :
  keys_within_headers self →
  (∀ row, row ∈ data → row_keys row ⊆ list_to_set (Some <$> headers)) →
  keys_within_headers (record_success data headers self).
Proof.
  intros Hinv Hdata row. unfold keys_within_headers in *.
  cbn [record_success consolidatedData allHeaders].
  intros [Hold|Hnew]%elem_of_app k Hk.
  - apply (Hinv row Hold) in Hk. apply elem_of_map in Hk as (key & -> & Hkey).
    apply elem_of_map. exists key. split; [done|]. by apply elem_of_union_l.
  - apply (Hdata row Hnew) in Hk.
    apply elem_of_list_to_set, list_elem_of_fmap in Hk as (key & -> & Hkey).
    apply elem_of_map. exists key. split; [done|].
    by apply elem_of_union_r, elem_of_list_to_set.
Qed.

Lemma consolidate_loop_keys_within (w : World) (files : list Path)
    (self : CsvConsolidator) :
  (∀ p, p ∈ files → no_wide_record w p) →
  keys_within_headers self →
  keys_within_headers
    (for_each files (λ csvFile,
       let '(data, headers, success) := readCsvFile w csvFile in
       if success && bool_decide (data ≠ [])
       then modify (record_success data headers)
       else modify (record_error (PyPath.name csvFile))) self).2.
Proof.
  revert self. induction files as [|p files IH]; intros self Hfit Hinv;
    [done|].
  cbn [for_each]. unfold mbind at 1, M_bind at 1.
  destruct (readCsvFile w p) as [[data headers] success] eqn:Hout.
  destruct success; cbn [andb].
  - case_bool_decide; unfold modify at 1; apply IH;
      try (intros q Hq; apply Hfit; by right); [|done].
    apply keys_within_headers_success; [done|].
    eapply readCsvFile_keys_within; [|done]. apply Hfit. left.
  - unfold modify at 1. apply IH; [|done].
    intros q Hq. apply Hfit. by right.
Qed.

(** Aggregation keeps the header invariant as long as no file has a
    record wider than its header. *)
Lemma consolidateFiles_keys_within (w : World) (self : CsvConsolidator) :
  (∀ p, p ∈ csvFiles self → no_wide_record w p) →
  keys_within_headers self →
  keys_within_headers (consolidateFiles w self).2.
Proof.
  intros Hfit Hinv. unfold consolidateFiles, gets.
  unfold mbind at 1, M_bind at 1. unfold mbind at 1, M_bind at 1.
  pose proof (consolidate_loop_keys_within w (csvFiles self) self Hfit Hinv)
    as Hloop.
  destruct (for_each _ _ self) as [[] self']. exact Hloop.
Qed.

(** [C3] The header invariant is broken by a record wider than its header:
    consolidating a file with the header [a] and the record [1,2] leaves a
    row with the key [None], which is not in [allHeaders], and the export
    of that dataset fails: the output file is opened and holds the header
    line only, and [exportResults] returns [None]. *)
Theorem wide_record_breaks_header_invariant :
  let w := world_with_text text_wide_record false in
  let self := (consolidateFiles w one_file_found).2 in
  readCsvFile w a_file = ([row_wide_record], ["a"], true)
  ∧ consolidatedData self = [row_wide_record]
  ∧ allHeaders self = {[ "a" ]}
  ∧ None ∈ row_keys row_wide_record
  ∧ ¬ keys_within_headers self
  ∧ returned (exportResults w self).1 = None
  ∧ written (exportResults w self).1 = Some ("a" +:+ Csv.lineterminator).
Proof.
  intros w self.
  assert (consolidatedData self = [row_wide_record]) as Hdata
    by (vm_compute; reflexivity).
  assert (allHeaders self = {[ "a" ]}) as Hhdrs by (vm_compute; reflexivity).
  assert (None ∈ row_keys row_wide_record) as Hnone.
  { unfold row_keys. cbn. apply elem_of_union_r. by apply elem_of_singleton. }
  split_and!;
    [vm_compute; reflexivity|done..| |vm_compute; reflexivity
    |vm_compute; reflexivity].
  intros Hinv. specialize (Hinv row_wide_record).
  rewrite Hdata in Hinv. specialize (Hinv (list_elem_of_here _ _) None Hnone).
  apply elem_of_map in Hinv as (k & [=] & _).
Qed.

(** ** Export *)

Lemma sorted_strs_perm (hs : gset string) : sorted_strs hs ≡ₚ elements hs.
Proof. apply merge_sort_Permutation. Qed.

Lemma sorted_strs_sorted (hs : gset string) :
  StronglySorted String.le (sorted_strs hs).
Proof. apply (StronglySorted_merge_sort String.le). Qed.

Lemma sorted_strs_keys (hs : gset string) :
  list_to_set (Some <$> sorted_strs hs) =@{gset (option string)}
  set_map Some hs.
Proof.
  apply set_eq. intros k.
  rewrite elem_of_list_to_set, elem_of_map, list_elem_of_fmap.
  setoid_rewrite (sorted_strs_perm hs).
  setoid_rewrite elem_of_elements. done.
Qed.

Lemma writerows_all (fieldnames : list string) (rows : list Row) :
  (∀ row, row ∈ rows →
          row_keys row ⊆ list_to_set (Some <$> fieldnames)) →
  Csv.writerows fieldnames rows
  = (PyStr.concat (export_line fieldnames <$> rows), Ok ()).
Proof.
  induction rows as [|row rows IH]; intros Hkeys; [done|].
  cbn [Csv.writerows]. unfold Csv.dict_to_list.
  rewrite decide_True by (apply Hkeys; left).
  rewrite IH by (intros r Hr; apply Hkeys; by right).
  done.
Qed.

(** When the rows carry only keys of the header set and the output file
    can be written, the export succeeds with the whole text. *)
Lemma exportResults_value (w : World) (self : CsvConsolidator) :
  keys_within_headers self →
  output_writable w self →
  (exportResults w self).1
  = {| written := Some (export_text (sorted_strs (allHeaders self))
                                    (consolidatedData self));
       returned := Some (outputPath w self) |}.
Proof.
  intros Hinv [Hopen Hwrite].
  unfold exportResults, gets, mbind, M_bind, mret, M_ret.
  rewrite Hopen, writerows_all.
  - by rewrite Hwrite.
  - intros row Hrow. rewrite sorted_strs_keys. by apply Hinv.
Qed.

(** Whatever the output file takes, a text is left only when the file was
    opened and took it; under the header invariant it is the whole text,
    and the path is returned. *)
Lemma exportResults_written (w : World) (self : CsvConsolidator)
    (text : string) :
  keys_within_headers self →
  written (exportResults w self).1 = Some text →
  text = export_text (sorted_strs (allHeaders self)) (consolidatedData self)
  ∧ returned (exportResults w self).1 = Some (outputPath w self).
Proof.
  intros Hinv. unfold exportResults, gets, mbind, M_bind, mret, M_ret.
  destruct (open_write w _); [|done].
  rewrite writerows_all
    by (intros row Hrow; rewrite sorted_strs_keys; by apply Hinv).
  destruct (write_text w _ _); [|done]. cbn. by intros [= <-].
Qed.

Lemma exportResults_state (w : World) (self : CsvConsolidator) :
  (exportResults w self).2 = self.
Proof.
  unfold exportResults, gets, mbind, M_bind, mret, M_ret.
  destruct (open_write w _); [|done].
  destruct (Csv.writerows _ _). by destruct (write_text w _ _).
Qed.

(** [C5] For every dataset whose rows carry only keys of the header set,
    and when the output file can be opened and written, [exportResults]
    writes a header line whose columns are the header set sorted ascending
    by ordinal string comparison, then one line per row in dataset order,
    with an empty cell for every column missing from the row, and returns
    the path of the file. Rows [{x: 1}, {y: 2}] under the headers [{x, y}]
    give the header [x,y] and the lines [1,] and [,2]. *)
Theorem exportResults_writes_sorted_columns
    (w : World) (self : CsvConsolidator) :
  keys_within_headers self →
  output_writable w self →
  let cols := sorted_strs (allHeaders self) in
  StronglySorted String.le cols
  ∧ cols ≡ₚ elements (allHeaders self)
  ∧ (exportResults w self).1
    = {| written := Some (export_text cols (consolidatedData self));
         returned := Some (outputPath w self) |}
  ∧ (∀ row c, cells row !! c = None →
              Csv.cell_text (cells row !! c) = EmptyString)
  ∧ (consolidatedData self = [single_cell "x" "1"; single_cell "y" "2"] →
     allHeaders self = {[ "x"; "y" ]} →
     written (exportResults w self).1
     = Some ("x,y" +:+ Csv.lineterminator +:+ "1," +:+ Csv.lineterminator
             +:+ ",2" +:+ Csv.lineterminator)).
Proof.
  intros Hinv Hio cols.
  pose proof (exportResults_value w self Hinv Hio) as Hexp. fold cols in Hexp.
  split_and!.
  - apply sorted_strs_sorted.
  - apply sorted_strs_perm.
  - exact Hexp.
  - intros row c ->. done.
  - intros Hrows Hhdrs. rewrite Hexp. subst cols. cbn [written].
    rewrite Hrows, Hhdrs. vm_compute. reflexivity.
Qed.

Lemma dataset_xy_keys_within_headers : keys_within_headers dataset_xy.
Proof.
  intros row Hrow. cbn in Hrow.
  apply elem_of_cons in Hrow as [->|Hrow];
    [|apply elem_of_cons in Hrow as [->|Hrow%elem_of_nil]; [|done]];
    apply (bool_decide_unpack _); vm_compute; exact I.
Qed.

Lemma world_of_writable (t : Glob.Node) (text : Path → Exc string)
    (sniffed : bool) (self : CsvConsolidator) :
  output_writable (world_of t text sniffed) self.
Proof. by split. Qed.

Lemma exportResults_writes_sorted_columns_witness :
  (exportResults (world_with_text "A,B,C" true) dataset_xy).1
  = {| written := Some text_export_xy;
       returned :=
         Some "data/Contoso_ConsolidatedHardwareHashes_2026-01-01_0000.csv" |}.
Proof.
  destruct (exportResults_writes_sorted_columns
              (world_with_text "A,B,C" true) dataset_xy
              dataset_xy_keys_within_headers (world_of_writable _ _ _ _))
    as (_ & _ & Hexp & _).
  rewrite Hexp. vm_compute. reflexivity.
Defined.

(** Against [C5] as the specification words it, for every dataset. The
    dataset left by consolidating a file with the header [a] and the
    record [1,2] has a row with the key [None]: [csv.DictWriter] raises on
    it, only the header line is written and [exportResults] returns
    [None]. And when the output file cannot be opened, nothing is written
    for any dataset. *)
Lemma exportResults_can_fail :
  let w := world_with_text text_wide_record false in
  let self := (consolidateFiles w one_file_found).2 in
  let out := (exportResults w self).1 in
  consolidatedData self = [row_wide_record]
  ∧ returned out = None
  ∧ written out = Some ("a" +:+ Csv.lineterminator)
  ∧ written out
    ≠ Some (export_text (sorted_strs (allHeaders self))
                        (consolidatedData self))
  ∧ keys_within_headers dataset_xy
  ∧ (exportResults world_output_refused dataset_xy).1
    = {| written := None; returned := None |}.
Proof.
  intros w self out.
  split_and!; [vm_compute; reflexivity..| | |vm_compute; reflexivity].
  - vm_compute. discriminate.
  - apply dataset_xy_keys_within_headers.
Qed.

(** ** Discovery *)

(** *** The order of paths *)

Lemma ltb_false_le (x y : string) :
  String.ltb y x = false → String.le x y.
Proof.
  unfold String.ltb, String.le, String.leb.
  rewrite (String.compare_antisym x y).
  by destruct (String.compare y x).
Qed.

Lemma le_ltb_false (x y : string) :
  String.le x y → String.ltb y x = false.
Proof.
  unfold String.ltb, String.le, String.leb.
  rewrite (String.compare_antisym x y).
  by destruct (String.compare y x).
Qed.

Lemma PyPath_le_nil_l (q : Path) : PyPath.le [] q.
Proof. unfold PyPath.le. by destruct q. Qed.

Lemma PyPath_le_nil_r (x : string) (p : Path) : ¬ PyPath.le (x :: p) [].
Proof. unfold PyPath.le. done. Qed.

Lemma PyPath_le_cons (x y : string) (p q : Path) :
  PyPath.le (x :: p) (y :: q)
  ↔ (x = y ∧ PyPath.le p q) ∨ (x ≠ y ∧ String.le x y).
Proof.
  unfold PyPath.le. cbn [PyPath.lt].
  destruct (decide (y = x)) as [->|Hne].
  - split; [by left | by intros [[_ ?]|[? _]]].
  - split.
    + intros H. right. split; [congruence|]. by apply ltb_false_le.
    + intros [[? _]|[_ H]]; [congruence|]. by apply le_ltb_false.
Qed.

Global Instance PyPath_le_total : Total PyPath.le.
Proof.
  intros p. induction p as [|x p IH]; intros q.
  - left. apply PyPath_le_nil_l.
  - destruct q as [|y q]; [right; apply PyPath_le_nil_l|].
    rewrite !PyPath_le_cons.
    destruct (decide (x = y)) as [->|Hne].
    + destruct (IH q); [left|right]; by left.
    + destruct (total String.le x y); [left|right]; right; done.
Qed.

Global Instance PyPath_le_trans : Transitive PyPath.le.
Proof.
  intros p. induction p as [|x p IH]; intros q r Hpq Hqr.
  - apply PyPath_le_nil_l.
  - destruct q as [|y q]; [by apply PyPath_le_nil_r in Hpq|].
    destruct r as [|z r]; [by apply PyPath_le_nil_r in Hqr|].
    apply PyPath_le_cons in Hpq. apply PyPath_le_cons in Hqr.
    apply PyPath_le_cons.
    destruct Hpq as [[-> Hpq]|[Hxy Hle1]], Hqr as [[-> Hqr]|[Hyz Hle2]].
    + left. split; [done|]. by eapply IH.
    + right. done.
    + right. done.
    + right. split.
      * intros ->. apply Hxy. by apply (anti_symm String.le).
      * by etrans.
Qed.

Lemma sorted_paths_sorted (l : list Path) :
  StronglySorted PyPath.le (sorted_paths l).
Proof. apply (StronglySorted_merge_sort PyPath.le). Qed.

Lemma sorted_paths_perm (l : list Path) : sorted_paths l ≡ₚ l.
Proof. apply merge_sort_Permutation. Qed.

(** *** Paths as strings *)

Lemma String_le_prefix (pre a b : string) :
  String.le (pre +:+ a) (pre +:+ b) ↔ String.le a b.
Proof.
  unfold String.le, String.leb. induction pre as [|c pre IH]; [done|].
  change (String c pre +:+ a) with (String c (pre +:+ a)).
  change (String c pre +:+ b) with (String c (pre +:+ b)).
  cbn [String.compare].
  assert (Ascii.compare c c = Eq) as -> by apply N.compare_refl.
  exact IH.
Qed.

Lemma append_cons (c : ascii) (a b : string) :
  String c a +:+ b = String c (a +:+ b).
Proof. reflexivity. Qed.

Lemma append_empty_r (a : string) : a +:+ EmptyString = a.
Proof.
  induction a as [|c a IH]; [done|]. by rewrite append_cons, IH.
Qed.

Lemma append_assoc (a b c : string) : (a +:+ b) +:+ c = a +:+ (b +:+ c).
Proof.
  induction a as [|x a IH]; [done|].
  change (String x a +:+ b) with (String x (a +:+ b)).
  change (String x (a +:+ b) +:+ c) with (String x ((a +:+ b) +:+ c)).
  by rewrite IH.
Qed.

Lemma join_snoc (sep : string) (l : list string) :
  ∃ pre, ∀ name, PyStr.join sep (l ++ [name]) = pre +:+ name.
Proof.
  induction l as [|x l [pre IH]].
  - exists EmptyString. done.
  - exists (x +:+ sep +:+ pre). intros name. cbn [app PyStr.join].
    destruct (l ++ [name]) eqn:E; [by destruct l|].
    rewrite <- E, IH. by rewrite !append_assoc.
Qed.

Lemma str_child (root : Path) :
  ∃ pre, ∀ name, PyPath.str (root ++ [name]) = pre +:+ name.
Proof.
  destruct root as [|r0 rest].
  - exists EmptyString. intros name. cbn [app PyPath.str PyStr.join].
    destruct (PyStr.startswith_char "/" name); [|done].
    by rewrite append_empty_r.
  - cbn [app PyPath.str]. destruct (PyStr.startswith_char "/" r0).
    + destruct (join_snoc "/" rest) as [pre Hpre].
      exists (r0 +:+ pre). intros name.
      by rewrite Hpre, append_assoc.
    + destruct (join_snoc "/" (r0 :: rest)) as [pre Hpre].
      exists pre. intros name. by rewrite <- Hpre.
Qed.

Lemma PyPath_le_child (root : Path) (a b : string) :
  PyPath.le (root ++ [a]) (root ++ [b]) → String.le a b.
Proof.
  induction root as [|x root IH]; cbn [app].
  - rewrite PyPath_le_cons. intros [[-> _]|[_ H]]; [done|done].
  - rewrite PyPath_le_cons. intros [[_ H]|[? _]]; [by apply IH|done].
Qed.

Lemma StronglySorted_fmap_on {A B} (R : relation A) (R' : relation B)
    (f : A → B) (l : list A) :
  (∀ x y, x ∈ l → y ∈ l → R x y → R' (f x) (f y)) →
  StronglySorted R l → StronglySorted R' (f <$> l).
Proof.
  intros Hf Hl. induction Hl as [|x l Hl IH Hx]; cbn; constructor.
  - apply IH. intros y z Hy Hz. apply Hf; by right.
  - apply Forall_fmap, Forall_forall. intros y Hy. cbn.
    apply Hf; [left|by right|].
    rewrite Forall_forall in Hx. by apply Hx.
Qed.

(** *** [glob] *)

Lemma elem_of_glob1 (entries : list (string * Glob.Node)) (name : string) :
  name ∈ Glob.glob1 entries
  ↔ Glob.matches name ∧ ∃ sub, (name, sub) ∈ entries.
Proof.
  unfold Glob.glob1. rewrite list_elem_of_filter, list_elem_of_fmap.
  split.
  - intros [Hm ([n sub] & -> & Hin)]. eauto.
  - intros [Hm (sub & Hin)]. split; [done|]. by exists (name, sub).
Qed.

Lemma elem_of_glob_top (n : Glob.Node) (rel : Path) :
  rel ∈ Glob.glob_top n
  ↔ ∃ entries name sub, n = Glob.Dir entries ∧ (name, sub) ∈ entries
                        ∧ Glob.matches name ∧ rel = [name].
Proof.
  destruct n as [|entries]; cbn [Glob.glob_top].
  - split; [by intros ?%elem_of_nil | by intros (? & ? & ? & ? & _)].
  - rewrite list_elem_of_fmap. setoid_rewrite elem_of_glob1. split.
    + intros (name & -> & Hm & sub & Hin). by exists entries, name, sub.
    + intros (es & name & sub & [= <-] & Hin & Hm & ->).
      exists name. eauto.
Qed.

Lemma glob_top_in_rec (n : Glob.Node) (rel : Path) :
  rel ∈ Glob.glob_top n → rel ∈ Glob.glob_rec n.
Proof.
  destruct n as [|entries]; cbn [Glob.glob_top Glob.glob_rec]; [done|].
  intros H. by apply elem_of_app; left.
Qed.

Lemma glob_rec_reaches (n : Glob.Node) (ds : list string)
    (entries : list (string * Glob.Node)) (name : string) (sub : Glob.Node) :
  Glob.descends n ds (Glob.Dir entries) →
  (name, sub) ∈ entries →
  Glob.matches name →
  ds ++ [name] ∈ Glob.glob_rec n.
Proof.
  intros Hdesc Hin Hm. remember (Glob.Dir entries) as n' eqn:En.
  induction Hdesc as [n|es name0 sub0 ds n' Hin0 Hhid Hdesc IH]; subst.
  - cbn [Glob.glob_rec app]. apply elem_of_app; left.
    apply list_elem_of_fmap. exists name. split; [done|].
    apply elem_of_glob1. eauto.
  - cbn [Glob.glob_rec]. apply elem_of_app; right.
    apply list_elem_of_In, in_flat_map. exists (name0, sub0).
    split; [by apply list_elem_of_In|]. cbn [fst snd]. rewrite Hhid.
    apply list_elem_of_In, list_elem_of_fmap. exists (ds ++ [name]).
    split; [done|]. by apply IH.
Qed.

Lemma elem_of_glob_rec (n : Glob.Node) (rel : Path) :
  rel ∈ Glob.glob_rec n
  ↔ ∃ entries, n = Glob.Dir entries
      ∧ ((∃ name, rel = [name] ∧ name ∈ Glob.glob1 entries)
         ∨ (∃ name sub rel', rel = name :: rel' ∧ (name, sub) ∈ entries
              ∧ Glob.ishidden name = false ∧ rel' ∈ Glob.glob_rec sub)).
Proof.
  destruct n as [|entries]; cbn [Glob.glob_rec].
  - split; [by intros ?%elem_of_nil|by intros (? & ? & _)].
  - rewrite elem_of_app, list_elem_of_fmap, list_elem_of_In, in_flat_map.
    split.
    + intros [(name & -> & Hname)|([name sub] & Hin & Hrel)];
        exists entries; (split; [done|]).
      * left. by exists name.
      * right. cbn [fst snd] in Hrel.
        destruct (Glob.ishidden name) eqn:Hh; [done|].
        apply list_elem_of_In, list_elem_of_fmap in Hrel as (rel' & -> & Hrel).
        exists name, sub, rel'. by rewrite list_elem_of_In.
    + intros (es & [= <-] & [(name & -> & Hname)
                            |(name & sub & rel' & -> & Hin & Hh & Hrel)]).
      * left. by exists name.
      * right. exists (name, sub). split; [by apply list_elem_of_In|].
        cbn [fst snd]. rewrite Hh.
        apply list_elem_of_In, list_elem_of_fmap. by exists rel'.
Qed.

(** Whatever the recursive pattern returns is an entry matching [*.csv],
    reached through directories that are not hidden. *)
Lemma glob_rec_sound (rel : Path) (n : Glob.Node) :
  rel ∈ Glob.glob_rec n →
  ∃ ds entries name sub,
    rel = ds ++ [name] ∧ Glob.descends n ds (Glob.Dir entries)
    ∧ (name, sub) ∈ entries ∧ Glob.matches name.
Proof.
  revert n. induction rel as [|x rel IH]; intros n Hrel;
    apply elem_of_glob_rec in Hrel
      as (entries & -> & [(name & Heq & Hname)
                         |(name & sub & rel' & Heq & Hin & Hh & Hrel)]);
    try done.
  - injection Heq as -> ->.
    apply elem_of_glob1 in Hname as [Hm [sub Hin]].
    exists [], entries, name, sub. split_and!; [done|constructor|done..].
  - injection Heq as -> ->.
    destruct (IH _ Hrel) as (ds & es & leaf & node & -> & Hd & Hleaf & Hm).
    exists (name :: ds), es, leaf, node.
    split_and!; [done|by econstructor|done..].
Qed.

Lemma descends_not_hidden (n n' : Glob.Node) (ds : list string) :
  Glob.descends n ds n' → Forall (λ d, Glob.ishidden d = false) ds.
Proof. induction 1; constructor; auto. Qed.

Lemma name_of_child (p : Path) (name : string) :
  PyPath.name (p ++ [name]) = name.
Proof. unfold PyPath.name. by rewrite last_snoc. Qed.

(** *** [findCsvFiles] *)

Lemma findCsvFiles_run (w : World) (self : CsvConsolidator) :
  findCsvFiles w self
  = (bool_decide (sorted_paths (globbed w self) ≠ []),
     set_csvFiles (sorted_paths (globbed w self)) self).
Proof.
  unfold findCsvFiles, globbed, gets, modify, mbind, M_bind, mret, M_ret.
  destruct (includeSubdirectories self); cbn [csvFiles set_csvFiles];
    by destruct (sorted_paths _).
Qed.

Lemma findCsvFiles_files (w : World) (self : CsvConsolidator) :
  csvFiles (findCsvFiles w self).2 = sorted_paths (globbed w self).
Proof. by rewrite findCsvFiles_run. Qed.

(** For a directory name without metacharacter, [glob] lists the tree of
    the directory. *)
Lemma globbed_plain (w : World) (self : CsvConsolidator) :
  Glob.has_magic (sourceDirectory self) = false →
  globbed w self
  = (λ rel, root_parts self ++ rel) <$>
    (if includeSubdirectories self then Glob.glob_rec (tree w)
     else Glob.glob_top (tree w)).
Proof. unfold globbed, glob_csv. by intros ->. Qed.

(** What is found without recursion: the matching entries of the tree *)
Lemma elem_of_found_top (w : World) (self : CsvConsolidator) (p : Path) :
  Glob.has_magic (sourceDirectory self) = false →
  includeSubdirectories self = false →
  p ∈ csvFiles (findCsvFiles w self).2
  ↔ ∃ entries name sub,
      tree w = Glob.Dir entries ∧ (name, sub) ∈ entries
      ∧ Glob.matches name ∧ p = root_parts self ++ [name].
Proof.
  intros Hplain Hflat.
  rewrite findCsvFiles_files, sorted_paths_perm, globbed_plain, Hflat by done.
  rewrite list_elem_of_fmap. setoid_rewrite elem_of_glob_top. split.
  - intros (rel & -> & es & name & sub & ? & ? & ? & ->).
    by exists es, name, sub.
  - intros (es & name & sub & ? & ? & ? & ->).
    exists [name]. split; [done|]. by exists es, name, sub.
Qed.

(** What is found with recursion: the matching entries of the tree and of
    the directories below it that are reached through non-hidden names *)
Lemma elem_of_found_deep (w : World) (self : CsvConsolidator) (p : Path) :
  Glob.has_magic (sourceDirectory self) = false →
  includeSubdirectories self = true →
  p ∈ csvFiles (findCsvFiles w self).2
  ↔ ∃ ds entries name sub,
      Glob.descends (tree w) ds (Glob.Dir entries) ∧ (name, sub) ∈ entries
      ∧ Glob.matches name ∧ p = root_parts self ++ ds ++ [name].
Proof.
  intros Hplain Hdeep.
  rewrite findCsvFiles_files, sorted_paths_perm, globbed_plain, Hdeep by done.
  rewrite list_elem_of_fmap. split.
  - intros (rel & -> & Hrel).
    destruct (glob_rec_sound _ _ Hrel)
      as (ds & es & name & sub & -> & ? & ? & ?).
    by exists ds, es, name, sub.
  - intros (ds & es & name & sub & ? & ? & ? & ->).
    exists (ds ++ [name]). split; [done|]. by eapply glob_rec_reaches.
Qed.

(** [C6] [findCsvFiles] leaves in [csvFiles] the paths that [glob]
    returned, sorted ascending by their parts: paths are compared part by
    part, each part by ordinal string comparison, a proper prefix first,
    which is how [sorted] orders POSIX [Path] objects. Without recursion,
    and for a source directory whose name has none of [*], [?] and [[],
    this is also the ascending order of the full path strings. When
    nothing matches, the list is empty and the method returns [False];
    nothing is raised. *)
Theorem findCsvFiles_sorted_by_parts (w : World) (self : CsvConsolidator) :
  let files := csvFiles (findCsvFiles w self).2 in
  files ≡ₚ globbed w self
  ∧ StronglySorted PyPath.le files
  ∧ (includeSubdirectories self = false →
     Glob.has_magic (sourceDirectory self) = false →
     StronglySorted String.le (PyPath.str <$> files))
  ∧ (globbed w self = [] → files = [] ∧ (findCsvFiles w self).1 = false).
Proof.
  intros files. subst files. rewrite findCsvFiles_files. split_and!.
  - apply sorted_paths_perm.
  - apply sorted_paths_sorted.
  - intros Hflat Hplain.
    destruct (str_child (root_parts self)) as [pre Hpre].
    apply (StronglySorted_fmap_on PyPath.le); [|apply sorted_paths_sorted].
    assert (∀ x, x ∈ sorted_paths (globbed w self) →
                 ∃ name, x = root_parts self ++ [name]) as Hshape.
    { intros x. rewrite <- findCsvFiles_files.
      intros (_ & name & _ & _ & _ & _ & ->)%elem_of_found_top; [|done..].
      by exists name. }
    intros x y [a ->]%Hshape [b ->]%Hshape Hle.
    rewrite !Hpre. apply String_le_prefix. by eapply PyPath_le_child.
  - intros Hnone. rewrite findCsvFiles_run, Hnone. done.
Qed.

Lemma findCsvFiles_sorted_by_parts_witness :
  csvFiles (findCsvFiles world_b_before_a (pointed_at_data false)).2
  = [["data"; "a.csv"]; ["data"; "b.csv"]]
  ∧ StronglySorted String.le
      (PyPath.str <$>
       csvFiles (findCsvFiles world_b_before_a (pointed_at_data false)).2)
  ∧ csvFiles (findCsvFiles world_no_csv (pointed_at_data false)).2 = []
  ∧ (findCsvFiles world_no_csv (pointed_at_data false)).1 = false.
Proof.
  destruct (findCsvFiles_sorted_by_parts world_b_before_a
              (pointed_at_data false)) as (_ & _ & Hstr & _).
  destruct (findCsvFiles_sorted_by_parts world_no_csv
              (pointed_at_data false)) as (_ & _ & _ & Hnone).
  split_and!.
  - vm_compute. reflexivity.
  - apply Hstr; reflexivity.
  - apply Hnone. reflexivity.
  - apply Hnone. reflexivity.
Defined.

(** Against [C6] as the specification words it: with recursion,
    [a/b.csv] is put before [a.csv] although the string [data/a.csv] is
    below [data/a/b.csv]. *)
Lemma findCsvFiles_not_sorted_by_string :
  let files :=
    csvFiles (findCsvFiles world_file_beside_dir (pointed_at_data true)).2 in
  files = [["data"; "a"; "b.csv"]; ["data"; "a.csv"]]
  ∧ PyPath.str <$> files = ["data/a/b.csv"; "data/a.csv"]
  ∧ String.ltb "data/a.csv" "data/a/b.csv" = true
  ∧ ¬ Sorted String.le (PyPath.str <$> files).
Proof.
  intros files.
  assert (PyPath.str <$> files = ["data/a/b.csv"; "data/a.csv"]) as Hstr
    by (vm_compute; reflexivity).
  split_and!; [vm_compute; reflexivity|done|vm_compute; reflexivity|].
  rewrite Hstr. intros Hs.
  inversion Hs as [|? ? _ Hhd]. inversion Hhd as [|? ? Hle].
  vm_compute in Hle. done.
Qed.

(** [C7] For a source directory whose name has none of [*], [?] and [[]:
    without recursion the discovered files are exactly the entries of the
    source directory whose names end in [.csv] and do not start with a
    dot, so none lies in a subdirectory; with recursion they are exactly
    such entries of the source directory and of every directory below it
    that is reached through names that do not start with a dot, at any
    depth; and whatever is discovered without recursion is discovered with
    it. *)
Theorem findCsvFiles_recursion_flag (w : World) (self : CsvConsolidator) :
  Glob.has_magic (sourceDirectory self) = false →
  let top :=
    csvFiles (findCsvFiles w (set_includeSubdirectories false self)).2 in
  let deep :=
    csvFiles (findCsvFiles w (set_includeSubdirectories true self)).2 in
  (∀ p, p ∈ top ↔
        ∃ entries name sub,
          tree w = Glob.Dir entries ∧ (name, sub) ∈ entries
          ∧ PyStr.endswith ".csv" name = true
          ∧ PyStr.startswith_char "." name = false
          ∧ p = PyPath.parse (sourceDirectory self) ++ [name])
  ∧ (∀ p, p ∈ deep ↔
          ∃ ds entries name sub,
            Glob.descends (tree w) ds (Glob.Dir entries)
            ∧ Forall (λ d, PyStr.startswith_char "." d = false) ds
            ∧ (name, sub) ∈ entries
            ∧ PyStr.endswith ".csv" name = true
            ∧ PyStr.startswith_char "." name = false
            ∧ p = PyPath.parse (sourceDirectory self) ++ ds ++ [name])
  ∧ (∀ p, p ∈ top → p ∈ deep).
Proof.
  intros Hplain top deep. subst top deep. split_and!.
  - intros p. rewrite elem_of_found_top by done. split.
    + intros (es & name & sub & ? & ? & [? ?] & ->). by exists es, name, sub.
    + intros (es & name & sub & ? & ? & ? & ? & ->).
      by exists es, name, sub.
  - intros p. rewrite elem_of_found_deep by done. split.
    + intros (ds & es & name & sub & Hd & ? & [? ?] & ->).
      exists ds, es, name, sub. split_and!; try done.
      by eapply descends_not_hidden.
    + intros (ds & es & name & sub & ? & _ & ? & ? & ? & ->).
      by exists ds, es, name, sub.
  - intros p. rewrite elem_of_found_top, elem_of_found_deep by done.
    intros (es & name & sub & Htree & ? & ? & ->).
    exists [], es, name, sub. rewrite Htree.
    split_and!; [constructor|done..].
Qed.

Lemma findCsvFiles_recursion_flag_witness :
  ["data"; "a"; "b.csv"]
  ∈ csvFiles (findCsvFiles world_file_beside_dir
                (set_includeSubdirectories true (pointed_at_data false))).2
  ∧ ["data"; "a.csv"]
    ∈ csvFiles (findCsvFiles world_file_beside_dir
                  (set_includeSubdirectories true (pointed_at_data false))).2.
Proof.
  destruct (findCsvFiles_recursion_flag world_file_beside_dir
              (pointed_at_data false) eq_refl) as (_ & Hdeep & Hsub).
  split.
  - apply Hdeep.
    exists ["a"], [("b.csv", Glob.File)], "b.csv", Glob.File.
    split_and!; try reflexivity.
    + eapply Glob.descends_cons;
        [apply list_elem_of_further, list_elem_of_here | reflexivity
        | apply Glob.descends_nil].
    + by repeat constructor.
    + apply list_elem_of_here.
  - apply Hsub. rewrite findCsvFiles_files. vm_compute.
    apply list_elem_of_here.
Defined.

(** Against [C7] as the specification words it, for every root and at any
    depth: in a directory holding [a.csv], [.hidden.csv] and a directory
    [.archive] with [x.csv], the recursive discovery returns [a.csv] only,
    although the names [.hidden.csv] and [x.csv] end in [.csv]. And for
    the source directory [hashes[1]], whose name is a pattern that matches
    the directory [hashes1], the file discovered without recursion is
    [hashes1/other.csv], which is no entry of the source directory. *)
Lemma findCsvFiles_hidden_and_pattern_roots :
  let deep :=
    csvFiles (findCsvFiles world_hidden_entries (pointed_at_data true)).2 in
  let elsewhere :=
    csvFiles (findCsvFiles world_bracket_directory
                (pointed_at_brackets false)).2 in
  deep = [["data"; "a.csv"]]
  ∧ tree world_hidden_entries
    = Glob.Dir [ ("a.csv", Glob.File); (".hidden.csv", Glob.File);
                 (".archive", Glob.Dir [("x.csv", Glob.File)]) ]
  ∧ PyStr.endswith ".csv" "x.csv" = true
  ∧ (["data"; ".archive"; "x.csv"] ∉ deep)
  ∧ PyStr.endswith ".csv" ".hidden.csv" = true
  ∧ (["data"; ".hidden.csv"] ∉ deep)
  ∧ Glob.has_magic "hashes[1]" = true
  ∧ tree world_bracket_directory = Glob.Dir [("mine.csv", Glob.File)]
  ∧ elsewhere = [["hashes1"; "other.csv"]].
Proof.
  intros deep elsewhere.
  assert (deep = [["data"; "a.csv"]]) as Hdeep by (vm_compute; reflexivity).
  split_and!; try done.
  - rewrite Hdeep. by intros [=]%list_elem_of_singleton.
  - rewrite Hdeep. by intros [=]%list_elem_of_singleton.
Qed.

(** ** Aggregation, file by file *)

Lemma consolidate_step (w : World) (p : Path) (self : CsvConsolidator) :
  (let '(data, headers, success) := readCsvFile w p in
   if success && bool_decide (data ≠ [])
   then modify (record_success data headers)
   else modify (record_error (PyPath.name p))) self
  = (tt, match accepted w p with
         | Some (data, headers) => record_success data headers self
         | None => record_error (PyPath.name p) self
         end).
Proof.
  unfold accepted. destruct (readCsvFile w p) as [[data headers] success].
  by destruct (success && bool_decide (data ≠ [])).
Qed.

Lemma for_each_cons {A} (x : A) (l : list A) (body : A → M unit)
    (self : CsvConsolidator) :
  for_each (x :: l) body self = for_each l body (body x self).2.
Proof.
  cbn [for_each]. unfold mbind, M_bind. by destruct (body x self) as [[] st].
Qed.

(** The state after the loop of [consolidateFiles], attribute by
    attribute *)
Lemma consolidate_loop_state (w : World) (files : list Path)
    (self : CsvConsolidator) :
  let self' :=
    (for_each files (λ csvFile,
       let '(data, headers, success) := readCsvFile w csvFile in
       if success && bool_decide (data ≠ [])
       then modify (record_success data headers)
       else modify (record_error (PyPath.name csvFile))) self).2 in
  consolidatedData self'
  = consolidatedData self ++ concat ((yields w files).*1)
  ∧ allHeaders self'
    = allHeaders self ∪ list_to_set (concat ((yields w files).*2))
  ∧ processedCount self' = processedCount self + length (yields w files)
  ∧ errorCount self' = errorCount self + length (rejected w files)
  ∧ errorFiles self' = errorFiles self ++ (PyPath.name <$> rejected w files)
  ∧ csvFiles self' = csvFiles self
  ∧ sourceDirectory self' = sourceDirectory self
  ∧ includeSubdirectories self' = includeSubdirectories self
  ∧ companyName self' = companyName self.
Proof.
  revert self. induction files as [|p files IH]; intros self.
  - cbn. rewrite !app_nil_r, union_empty_r_L, !Nat.add_0_r. done.
  - rewrite for_each_cons, consolidate_step. cbn [snd].
    unfold yields, rejected in *. cbn [omap list_omap].
    rewrite filter_cons.
    destruct (accepted w p) as [[data headers]|] eqn:Hacc.
    + rewrite decide_False by (intros H; apply H; by eexists).
      destruct (IH (record_success data headers self))
        as (-> & -> & -> & -> & -> & -> & -> & -> & ->).
      cbn [record_success consolidatedData allHeaders processedCount
           errorCount errorFiles csvFiles sourceDirectory
           includeSubdirectories companyName fmap list_fmap concat
           fst snd length].
      rewrite <- !app_assoc, list_to_set_app_L, <- union_assoc_L.
      split_and!; try done. lia.
    + rewrite decide_True by (by intros [? ?]).
      destruct (IH (record_error (PyPath.name p) self))
        as (-> & -> & -> & -> & -> & -> & -> & -> & ->).
      cbn [record_error consolidatedData allHeaders processedCount
           errorCount errorFiles csvFiles sourceDirectory
           includeSubdirectories companyName fmap list_fmap length].
      rewrite <- !app_assoc. split_and!; try done. lia.
Qed.

Lemma consolidateFiles_run (w : World) (self : CsvConsolidator) :
  let self' :=
    (for_each (csvFiles self) (λ csvFile,
       let '(data, headers, success) := readCsvFile w csvFile in
       if success && bool_decide (data ≠ [])
       then modify (record_success data headers)
       else modify (record_error (PyPath.name csvFile))) self).2 in
  consolidateFiles w self
  = (bool_decide (0 < length (consolidatedData self')), self').
Proof.
  intros self'. subst self'.
  unfold consolidateFiles, gets.
  unfold mbind at 1, M_bind at 1. unfold mbind at 1, M_bind at 1.
  by destruct (for_each _ _ self) as [[] st].
Qed.

Lemma length_concat_sum {A} (l : list (list A)) :
  length (concat l) = sum_list (length <$> l).
Proof.
  induction l as [|x l IH]; [done|].
  cbn [concat fmap list_fmap sum_list sum_list_with].
  rewrite length_app. f_equal. exact IH.
Qed.

(** [X1] After [consolidateFiles] the consolidated rows are the earlier
    rows followed by the rows of every accepted file, file after file in
    the order of [csvFiles] and in each file's own order; the header set is
    the earlier set joined with the headers of the accepted files, and of
    no other file. *)
Theorem consolidateFiles_appends_accepted (w : World)
    (self : CsvConsolidator) :
  let self' := (consolidateFiles w self).2 in
  let taken := yields w (csvFiles self) in
  consolidatedData self' = consolidatedData self ++ concat (taken.*1)
  ∧ length (consolidatedData self')
    = length (consolidatedData self) + sum_list (length <$> taken.*1)
  ∧ allHeaders self' = allHeaders self ∪ list_to_set (concat (taken.*2))
  ∧ allHeaders self ⊆ allHeaders self'.
Proof.
  intros self' taken. subst self' taken. rewrite consolidateFiles_run.
  cbn [snd].
  destruct (consolidate_loop_state w (csvFiles self) self)
    as (Hdata & Hhdrs & _).
  rewrite Hdata, Hhdrs. split_and!; [done| |done|].
  - rewrite length_app. f_equal. apply length_concat_sum.
  - apply union_subseteq_l.
Qed.

Lemma yields_rejected_split (w : World) (files : list Path) :
  length (yields w files) + length (rejected w files) = length files.
Proof.
  unfold yields, rejected. induction files as [|p files IH]; [done|].
  cbn [omap list_omap]. rewrite filter_cons.
  destruct (accepted w p) as [x|].
  - rewrite decide_False by (intros H; apply H; by eexists). cbn. lia.
  - rewrite decide_True by (by intros [? ?]). cbn. lia.
Qed.

Lemma accepted_rows_nonempty (w : World) (p : Path)
    (data : list Row) (headers : list string) :
  accepted w p = Some (data, headers) → data ≠ [].
Proof.
  unfold accepted. destruct (readCsvFile w p) as [[d h] ok].
  destruct (ok && bool_decide (d ≠ [])) eqn:E; [|done].
  intros [= <- <-].
  by apply andb_true_iff in E as [_ Hd%bool_decide_eq_true].
Qed.

Lemma yields_rows_nonempty (w : World) (files : list Path) :
  concat ((yields w files).*1) ≠ []
  ↔ ∃ p, p ∈ files ∧ is_Some (accepted w p).
Proof.
  unfold yields. induction files as [|p files IH].
  - cbn. split; [done|]. by intros (p & ?%elem_of_nil & _).
  - cbn [omap list_omap].
    destruct (accepted w p) as [[data headers]|] eqn:Hacc.
    + split; [intros _; exists p; split; [left|by eexists]|].
      intros _. cbn [fmap list_fmap fst concat].
      apply accepted_rows_nonempty in Hacc. by destruct data.
    + rewrite IH. split.
      * intros (q & Hq & Hs). exists q. split; [by right|done].
      * intros (q & [->|Hq]%elem_of_cons & Hs).
        -- rewrite Hacc in Hs. by destruct Hs.
        -- by exists q.
Qed.

(** [X2] [consolidateFiles] counts every file once: the processed counter
    grows by the number of accepted files, the error counter by the number
    of the others, whose names are appended to [errorFiles] in order; the
    two counters together grow by the number of files, and the error
    counter and the error list grow alike. The discovered files and the
    user's inputs are left alone. *)
Theorem consolidateFiles_counts_every_file (w : World)
    (self : CsvConsolidator) :
  let self' := (consolidateFiles w self).2 in
  processedCount self'
  = processedCount self + length (yields w (csvFiles self))
  ∧ errorCount self'
    = errorCount self + length (rejected w (csvFiles self))
  ∧ errorFiles self'
    = errorFiles self ++ (PyPath.name <$> rejected w (csvFiles self))
  ∧ processedCount self' + errorCount self'
    = processedCount self + errorCount self + length (csvFiles self)
  ∧ length (errorFiles self') - length (errorFiles self)
    = errorCount self' - errorCount self
  ∧ csvFiles self' = csvFiles self
  ∧ sourceDirectory self' = sourceDirectory self
  ∧ includeSubdirectories self' = includeSubdirectories self
  ∧ companyName self' = companyName self.
Proof.
  intros self'. subst self'. rewrite consolidateFiles_run. cbn [snd].
  destruct (consolidate_loop_state w (csvFiles self) self)
    as (_ & _ & Hp & He & Hf & Hrest).
  rewrite Hp, He, Hf. split_and!; try done; try apply Hrest.
  - pose proof (yields_rejected_split w (csvFiles self)). lia.
  - rewrite length_app, length_fmap. lia.
Qed.

(** [X3] [consolidateFiles] returns [True] exactly when there is a
    consolidated row afterwards; from a consolidator without rows, that is
    exactly when some file is accepted. *)
Theorem consolidateFiles_true_iff_rows (w : World) (self : CsvConsolidator) :
  ((consolidateFiles w self).1 = true
   ↔ consolidatedData (consolidateFiles w self).2 ≠ [])
  ∧ (consolidatedData self = [] →
     ((consolidateFiles w self).1 = true
      ↔ ∃ p, p ∈ csvFiles self ∧ is_Some (accepted w p))).
Proof.
  assert ((consolidateFiles w self).1 = true
          ↔ consolidatedData (consolidateFiles w self).2 ≠ []) as Hret.
  { rewrite consolidateFiles_run. cbn [fst snd].
    rewrite bool_decide_eq_true.
    destruct (consolidatedData _); cbn; split; (done || lia). }
  split; [done|]. intros Hempty. rewrite Hret.
  rewrite consolidateFiles_run. cbn [snd].
  destruct (consolidate_loop_state w (csvFiles self) self) as (-> & _).
  rewrite Hempty. cbn [app]. apply yields_rows_nonempty.
Qed.

Lemma consolidateFiles_true_iff_rows_witness :
  (consolidateFiles (world_with_text text_short_record false)
     one_file_found).1 = true
  ↔ ∃ p, p ∈ csvFiles one_file_found
         ∧ is_Some (accepted (world_with_text text_short_record false) p).
Proof.
  apply (consolidateFiles_true_iff_rows
           (world_with_text text_short_record false) one_file_found).
  reflexivity.
Defined.

(** ** From aggregation to export *)

Lemma text_short_record_fits :
  no_wide_record (world_with_text text_short_record false) a_file.
Proof.
  intros content hdr rest [= <-] Hread.
  vm_compute in Hread. injection Hread as <- <-.
  intros row Hrow. apply list_elem_of_singleton in Hrow as ->. cbn. lia.
Qed.

Lemma consolidateFiles_outputPath (w : World) (self : CsvConsolidator) :
  outputPath w (consolidateFiles w self).2 = outputPath w self.
Proof.
  rewrite consolidateFiles_run. cbn [snd].
  destruct (consolidate_loop_state w (csvFiles self) self)
    as (_ & _ & _ & _ & _ & _ & Hdir & _ & Hname).
  unfold outputPath. by rewrite Hdir, Hname.
Qed.

(** [X4] When the rows held so far have their keys among the headers, no
    file has a record wider than its header, and the output file can be
    opened and written, the header invariant holds after
    [consolidateFiles] and [exportResults] then succeeds: it returns the
    output path, having written the header line and one line per
    consolidated row, and it leaves the consolidator as it was. *)
Theorem consolidate_then_export_succeeds (w : World)
    (self : CsvConsolidator) :
  keys_within_headers self →
  (∀ p, p ∈ csvFiles self → no_wide_record w p) →
  output_writable w self →
  let self' := (consolidateFiles w self).2 in
  keys_within_headers self'
  ∧ (exportResults w self').1
    = {| written := Some (export_text (sorted_strs (allHeaders self'))
                                      (consolidatedData self'));
         returned := Some (outputPath w self) |}
  ∧ (exportResults w self').2 = self'.
Proof.
  intros Hinv Hfit Hio self'.
  assert (keys_within_headers self') as Hinv'
    by by apply consolidateFiles_keys_within.
  split_and!; [done| |apply exportResults_state].
  rewrite exportResults_value; [|done|].
  - subst self'. by rewrite consolidateFiles_outputPath.
  - unfold output_writable. subst self'.
    by rewrite consolidateFiles_outputPath.
Qed.

Lemma consolidate_then_export_succeeds_witness :
  returned
    (exportResults (world_with_text text_short_record false)
       (consolidateFiles (world_with_text text_short_record false)
          one_file_found).2).1
  = Some "_ConsolidatedHardwareHashes_2026-01-01_0000.csv".
Proof.
  destruct (consolidate_then_export_succeeds
              (world_with_text text_short_record false) one_file_found)
    as (_ & Hexp & _).
  - intros row Hrow. by apply elem_of_nil in Hrow.
  - intros p Hp. apply list_elem_of_singleton in Hp as ->.
    apply text_short_record_fits.
  - apply world_of_writable.
  - rewrite Hexp. reflexivity.
Defined.

(** ** More on duplicate counting *)

Lemma sum_indicator (D : list string) (a : string) :
  NoDup D → a ∈ D →
  sum_list ((λ x, if decide (a = x) then 1 else 0) <$> D) = 1.
Proof.
  induction 1 as [|x D Hx Hnd IH]; intros Ha; [by apply elem_of_nil in Ha|].
  cbn [fmap list_fmap sum_list sum_list_with].
  destruct (decide (a = x)) as [->|Hne].
  - assert (sum_list ((λ y, if decide (x = y) then 1 else 0) <$> D) = 0)
      as ->; [|done].
    clear IH Ha Hnd. induction D as [|y D IH]; [done|].
    apply not_elem_of_cons in Hx as [Hne Hx].
    cbn [fmap list_fmap sum_list sum_list_with].
    rewrite decide_False by done. by rewrite IH.
  - apply elem_of_cons in Ha as [?|Ha]; [done|]. by rewrite IH.
Qed.

Lemma sum_occurrences (D l : list string) :
  NoDup D → (∀ x, x ∈ l → x ∈ D) →
  sum_list (occurrences l <$> D) = length l.
Proof.
  intros Hnd. induction l as [|a l IH]; intros Hsub.
  - clear Hnd Hsub. induction D as [|x D IHD]; [done|].
    cbn [fmap list_fmap sum_list sum_list_with]. by rewrite IHD.
  - assert (sum_list (occurrences (a :: l) <$> D)
            = sum_list ((λ x, if decide (a = x) then 1 else 0) <$> D)
              + sum_list (occurrences l <$> D)) as ->.
    { clear. induction D as [|x D IH]; [done|].
      cbn [fmap list_fmap sum_list sum_list_with].
          rewrite IH, occurrences_cons. unfold id. lia. }
    rewrite sum_indicator by (done || apply Hsub; left).
    rewrite IH by (intros x Hx; apply Hsub; by right). done.
Qed.

Lemma repeated_excess (l D : list string) :
  (∀ x, x ∈ D → 0 < occurrences l x) →
  sum_list (occurrences l <$> filter (λ x, 2 ≤ occurrences l x) D)
  + length D
  = sum_list (occurrences l <$> D)
    + length (filter (λ x, 2 ≤ occurrences l x) D).
Proof.
  induction D as [|x D IH]; intros Hpos; [done|].
  rewrite filter_cons.
  specialize (IH (λ y Hy, Hpos y (list_elem_of_further _ _ _ Hy))).
  pose proof (Hpos x (list_elem_of_here _ _)).
  destruct (decide (2 ≤ occurrences l x));
    cbn [fmap list_fmap sum_list sum_list_with length];
    unfold id in *; lia.
Qed.

Lemma spec_countDuplicates_excess (ids : list string) :
  spec_countDuplicates ids
  = (Z.of_nat (length ids) - Z.of_nat (length (remove_dups ids)))%Z.
Proof.
  unfold spec_countDuplicates, repeated.
  pose proof (repeated_excess ids (remove_dups ids)) as H.
  rewrite (sum_occurrences (remove_dups ids) ids) in H.
  - specialize (H (λ x Hx, proj2 (occurrences_pos ids x)
                             (proj1 (elem_of_remove_dups ids x) Hx))).
    lia.
  - apply NoDup_remove_dups.
  - intros x Hx. by apply elem_of_remove_dups.
Qed.

Lemma remove_dups_length_le {A} `{EqDecision A} (l : list A) :
  length (remove_dups l) ≤ length l.
Proof.
  induction l as [|a l IH]; [done|]. cbn [remove_dups].
  destruct (decide_rel _ a l); cbn [length]; lia.
Qed.

Lemma remove_dups_length_NoDup {A} `{EqDecision A} (l : list A) :
  length (remove_dups l) = length l ↔ NoDup l.
Proof.
  induction l as [|a l IH]; [split; [constructor|done]|].
  cbn [remove_dups]. pose proof (remove_dups_length_le l).
  destruct (decide_rel _ a l) as [Hin|Hnin]; cbn [length].
  - split; [lia|]. intros [? _]%NoDup_cons. done.
  - rewrite NoDup_cons, <- IH. split; [intros; split; [done|lia]|].
    intros [_ ->]. done.
Qed.

Lemma omap_length_le {A B} (f : A → option B) (l : list A) :
  length (omap f l) ≤ length l.
Proof.
  induction l as [|a l IH]; [done|]. cbn [omap list_omap].
  destruct (f a); cbn [length]; lia.
Qed.

(** [X5] The count [checkDuplicates] returns is the number of rows that
    carry an identifier minus the number of distinct identifiers. It is
    never negative, it is below the number of rows when there are rows,
    and it is 0 exactly when no identifier occurs twice. *)
Theorem checkDuplicates_is_rows_minus_distinct (self : CsvConsolidator) :
  let ids := serialNumbers (consolidatedData self) in
  (checkDuplicates self).1
  = (Z.of_nat (length ids) - Z.of_nat (length (remove_dups ids)))%Z
  ∧ (0 ≤ (checkDuplicates self).1)%Z
  ∧ (consolidatedData self ≠ [] →
     ((checkDuplicates self).1 < Z.of_nat (length (consolidatedData self)))%Z)
  ∧ ((checkDuplicates self).1 = 0%Z ↔ NoDup ids).
Proof.
  intros ids. subst ids.
  rewrite checkDuplicates_value, spec_countDuplicates_excess.
  set (ids := serialNumbers (consolidatedData self)).
  pose proof (remove_dups_length_le ids) as Hle.
  assert (length ids ≤ length (consolidatedData self)) as Hrows.
  { subst ids. rewrite serialNumbers_spec. apply omap_length_le. }
  split_and!; [done|lia| |].
  - intros Hne. destruct ids as [|x ids'] eqn:E.
    + cbn. destruct (consolidatedData self); [done|cbn; lia].
    + rewrite <- E in *. cbn [remove_dups] in *.
      assert (0 < length (remove_dups ids)); [|lia].
      rewrite E. cbn [remove_dups].
      destruct (decide_rel _ x ids') as [Hin|Hnin]; cbn [length]; [|lia].
      apply elem_of_remove_dups in Hin.
      destruct (remove_dups ids'); [by apply elem_of_nil in Hin|cbn; lia].
  - rewrite <- remove_dups_length_NoDup. lia.
Qed.

Lemma checkDuplicates_is_rows_minus_distinct_witness :
  ((checkDuplicates dataset_AABCCC).1
   < Z.of_nat (length (consolidatedData dataset_AABCCC)))%Z.
Proof.
  apply (checkDuplicates_is_rows_minus_distinct dataset_AABCCC).
  discriminate.
Defined.

(** [X6] The count of [checkDuplicates] does not depend on the order of
    the consolidated rows, hence not on the order in which the files were
    read. *)
Theorem checkDuplicates_order_independent (self other : CsvConsolidator) :
  consolidatedData self ≡ₚ consolidatedData other →
  (checkDuplicates self).1 = (checkDuplicates other).1.
Proof.
  intros Hperm.
  rewrite !checkDuplicates_value, !spec_countDuplicates_excess,
    !serialNumbers_spec.
  assert (omap spec_identifier (consolidatedData self)
          ≡ₚ omap spec_identifier (consolidatedData other)) as Hids
    by by apply omap_Permutation.
  rewrite (Permutation_length Hids).
  assert (remove_dups (omap spec_identifier (consolidatedData self))
          ≡ₚ remove_dups (omap spec_identifier (consolidatedData other)))
    as Hdis.
  { apply NoDup_Permutation; [apply NoDup_remove_dups..|].
    intros x. rewrite !elem_of_remove_dups. by rewrite Hids. }
  by rewrite (Permutation_length Hdis).
Qed.

Lemma checkDuplicates_order_independent_witness :
  (checkDuplicates dataset_AABCCC).1 = (checkDuplicates dataset_CCCBAA).1.
Proof.
  apply checkDuplicates_order_independent.
  cbn [dataset_CCCBAA consolidatedData].
  symmetry. apply reverse_Permutation.
Defined.

(** ** A blank first line *)

Lemma synthesized_zero_columns (row : list string) (d : Row) :
  synthesized 0 row d → d = empty_row.
Proof.
  intros (Hrest & Hdom & _). destruct d as [c r]. cbn in *. subst r.
  apply dom_empty_inv_L in Hdom. by subst c.
Qed.

(** [X7] When the first record of a file is blank (the text starts with a
    line break), [readCsvFile] succeeds with no header at all and one
    empty row per non-blank record: every value of the file is dropped. *)
Theorem blank_first_line_drops_all_values
    (w : World) (p : Path) (content : string) (rest : list (list string)) :
  open_read w p = Ok content →
  PyStr.all_space content = false →
  Csv.reader (sniff_dialect w content) content = Ok ([] :: rest) →
  readCsvFile w p
  = (replicate (length (filter (λ r, r ≠ []) rest)) empty_row, [], true).
Proof.
  intros Hopen Hsp Hread.
  rewrite (readCsvFile_text _ _ _ Hopen Hsp).
  pose proof (read_with_dialect_cases (sniff_dialect w content) content)
    as Hcases.
  rewrite Hread in Hcases.
  destruct Hcases as [(Hhdr & _)|(data & -> & Hall)]; [done|].
  rewrite filter_cons_False in Hall by (by intros H). cbn [length].
  f_equal. f_equal. symmetry.
  apply replicate_as_Forall. split.
  - symmetry. by eapply Forall2_length.
  - apply Forall_forall. intros d Hd.
    apply list_elem_of_lookup in Hd as [i Hi].
    destruct (Forall2_lookup_r _ _ _ _ _ Hall Hi) as (r & _ & Hsyn).
    symmetry. by eapply synthesized_zero_columns.
Qed.

Lemma blank_first_line_drops_all_values_witness :
  readCsvFile (world_with_text text_blank_first_line false) a_file
  = ([empty_row; empty_row], [], true).
Proof.
  apply (blank_first_line_drops_all_values
           (world_with_text text_blank_first_line false) a_file
           text_blank_first_line [["a"; "b"]; ["1"; "2"]]);
    [reflexivity | reflexivity | vm_compute; reflexivity].
Defined.

(** ** Writing and reading back *)

(** *** Strings as lists of characters *)

Lemma chars_append (a b : string) :
  PyStr.chars (a +:+ b) = PyStr.chars a ++ PyStr.chars b.
Proof.
  induction a as [|c a IH]; [done|].
  rewrite append_cons. cbn [PyStr.chars app]. by rewrite IH.
Qed.

Lemma length_chars (a : string) : String.length a = length (PyStr.chars a).
Proof. induction a as [|c a IH]; [done|]. cbn. by rewrite IH. Qed.

Lemma length_append (a b : string) :
  String.length (a +:+ b) = String.length a + String.length b.
Proof. by rewrite !length_chars, chars_append, length_app. Qed.

Lemma snoc_append (a b : string) (c : ascii) :
  PyStr.snoc a c +:+ b = a +:+ String c b.
Proof. unfold PyStr.snoc. by rewrite append_assoc. Qed.

(** *** Runs of the reader *)

Lemma run_chars_raise (d : Csv.Dialect) (e : PyExc) (cs : list ascii) :
  foldl (λ acc ch, r0 ← acc; Csv.parse_process_char d r0 (Some ch))
        (Raise e) cs = Raise e.
Proof. induction cs as [|c cs IH]; [done|]. cbn [foldl]. exact IH. Qed.

Lemma run_chars_cons (d : Csv.Dialect) (r : Csv.Reader) (c : ascii)
    (cs : list ascii) :
  run_chars d r (c :: cs)
  = r' ← Csv.parse_process_char d r (Some c); run_chars d r' cs.
Proof.
  unfold run_chars. cbn [foldl mbind Exc_bind].
  destruct (Csv.parse_process_char d r (Some c)) as [r'|e]; [done|].
  apply run_chars_raise.
Qed.

Lemma run_chars_app (d : Csv.Dialect) (r : Csv.Reader) (a b : list ascii) :
  run_chars d r (a ++ b) = r' ← run_chars d r a; run_chars d r' b.
Proof.
  revert r. induction a as [|c a IH]; intros r; [done|].
  cbn [app]. rewrite !run_chars_cons.
  destruct (Csv.parse_process_char d r (Some c)) as [r'|e]; [|done].
  cbn [mbind Exc_bind]. apply IH.
Qed.

Lemma add_char_within (r : Csv.Reader) (c : ascii) :
  (N.of_nat (String.length (Csv.field r)) < Csv.field_limit)%N →
  Csv.parse_add_char r c
  = Ok {| Csv.state := Csv.state r; Csv.fields := Csv.fields r;
          Csv.field := PyStr.snoc (Csv.field r) c |}.
Proof.
  intros Hlt. unfold Csv.parse_add_char.
  by rewrite (proj2 (N.leb_gt _ _) Hlt).
Qed.

(** An unquoted field, character by character *)
Lemma run_in_field (dq : bool) (s : string) (r : Csv.Reader) :
  Csv.state r = Csv.IN_FIELD →
  Forall (λ c, Csv.needs_quotes c = false) (PyStr.chars s) →
  within_limit (Csv.field r +:+ s) →
  run_chars (comma_quote_dialect dq) r (PyStr.chars s)
  = Ok {| Csv.state := Csv.IN_FIELD; Csv.fields := Csv.fields r;
          Csv.field := Csv.field r +:+ s |}.
Proof.
  revert r. induction s as [|c s IH]; intros r Hst Hplain Hlim.
  - rewrite append_empty_r. destruct r. cbn in *. by subst.
  - cbn [PyStr.chars] in *. apply Forall_cons in Hplain as [Hc Hplain].
    rewrite run_chars_cons. unfold Csv.parse_process_char. rewrite Hst.
    unfold Csv.needs_quotes in Hc.
    apply orb_false_iff in Hc as [[Hd Hq]%orb_false_iff Hnl].
    cbn [Csv.delimiter comma_quote_dialect Csv.excel] in *.
    rewrite Hnl, Hd. rewrite add_char_within.
    + cbn [mbind Exc_bind]. rewrite IH; cbn [Csv.state Csv.field Csv.fields].
      * by rewrite snoc_append.
      * done.
      * done.
      * by rewrite snoc_append.
    + unfold within_limit in Hlim. rewrite length_append in Hlim.
      cbn [String.length] in Hlim. lia.
Qed.

(** The inside of a quoted field, quote characters doubled. A reader
    that does not take a doubled quote for a quote reads the field back
    when it holds no quote. *)
Lemma run_in_quoted_field (dq : bool) (s : string) (r : Csv.Reader) :
  Csv.state r = Csv.IN_QUOTED_FIELD →
  within_limit (Csv.field r +:+ s) →
  dq = true ∨ quote_free s →
  run_chars (comma_quote_dialect dq) r (PyStr.chars (Csv.escape_field s))
  = Ok {| Csv.state := Csv.IN_QUOTED_FIELD; Csv.fields := Csv.fields r;
          Csv.field := Csv.field r +:+ s |}.
Proof.
  revert r. induction s as [|c s IH]; intros r Hst Hlim Hdq.
  - rewrite append_empty_r. destruct r. cbn in *. by subst.
  - assert (N.of_nat (String.length (Csv.field r)) < Csv.field_limit)%N
      as Hlt.
    { unfold within_limit in Hlim. rewrite length_append in Hlim.
      cbn [String.length] in Hlim. lia. }
    assert (dq = true ∨ quote_free s) as Hdq'.
    { destruct Hdq as [?|Hfree]; [by left|right].
      by apply Forall_cons in Hfree as [_ ?]. }
    cbn [Csv.escape_field]. case_bool_decide as Hq.
    + subst c. destruct Hdq as [->|Hfree].
      2:{ apply Forall_cons in Hfree as [Hc _]. by destruct Hc. }
      cbn [PyStr.chars]. rewrite run_chars_cons.
      unfold Csv.parse_process_char at 1. rewrite Hst.
      cbn [Csv.quotechar comma_quote_dialect Csv.excel].
      rewrite bool_decide_eq_true_2 by done.
      cbn [mbind Exc_bind Csv.doublequote comma_quote_dialect].
      rewrite run_chars_cons.
      unfold Csv.parse_process_char at 1.
      cbn [Csv.set_state Csv.state Csv.quotechar comma_quote_dialect].
      rewrite bool_decide_eq_true_2 by done.
      cbn [Csv.fields Csv.field].
      rewrite add_char_within by done.
      cbn [mbind Exc_bind Csv.set_state Csv.state Csv.fields Csv.field].
      rewrite IH; cbn [Csv.set_state Csv.state Csv.field Csv.fields];
        [by rewrite snoc_append | done | by rewrite snoc_append | by left].
    + cbn [PyStr.chars]. rewrite run_chars_cons.
      unfold Csv.parse_process_char at 1. rewrite Hst.
      cbn [Csv.quotechar comma_quote_dialect Csv.excel] in *.
      rewrite bool_decide_eq_false_2 by done.
      rewrite add_char_within by done. cbn [mbind Exc_bind].
      rewrite IH; cbn [Csv.set_state Csv.state Csv.field Csv.fields];
        [by rewrite snoc_append | done | by rewrite snoc_append | done].
Qed.

(** The reader is about to read a field *)
Lemma start_unquoted (dq : bool) (r : Csv.Reader) (c : ascii) :
  Csv.state r = Csv.START_FIELD ∨ Csv.state r = Csv.START_RECORD →
  Csv.field r = EmptyString →
  Csv.needs_quotes c = false →
  Csv.parse_process_char (comma_quote_dialect dq) r (Some c)
  = Ok {| Csv.state := Csv.IN_FIELD; Csv.fields := Csv.fields r;
          Csv.field := String c EmptyString |}.
Proof.
  intros Hst Hfld Hc. destruct r as [st fs fld]. cbn in Hst, Hfld. subst fld.
  unfold Csv.needs_quotes in Hc.
  apply orb_false_iff in Hc as [[Hd Hq]%orb_false_iff Hnl].
  cbn [Csv.delimiter Csv.quotechar Csv.excel] in Hd, Hq.
  unfold Csv.parse_process_char.
  destruct Hst as [-> | ->]; cbn [Csv.state];
    unfold Csv.start_field; rewrite ?Hnl; cbn [Csv.set_state Csv.state];
    cbn [Csv.delimiter Csv.quotechar Csv.skipinitialspace
         comma_quote_dialect];
    rewrite ?Hnl, ?Hq, ?Hd; rewrite andb_false_r; reflexivity.
Qed.

Lemma start_quoted (dq : bool) (r : Csv.Reader) :
  Csv.state r = Csv.START_FIELD ∨ Csv.state r = Csv.START_RECORD →
  Csv.parse_process_char (comma_quote_dialect dq) r (Some Csv.dquote)
  = Ok (Csv.set_state Csv.IN_QUOTED_FIELD r).
Proof.
  intros Hst. destruct r as [st fs fld]. cbn in Hst.
  unfold Csv.parse_process_char.
  destruct Hst as [-> | ->]; reflexivity.
Qed.

Lemma existsb_false_Forall {A} (f : A → bool) (l : list A) :
  existsb f l = false → Forall (λ x, f x = false) l.
Proof.
  induction l as [|x l IH]; [constructor|]. cbn.
  intros [? ?]%orb_false_iff. constructor; auto.
Qed.

(** The text of a field, written bare or between quotes, leaves the
    reader holding the field, in a state where a delimiter or a line break
    will save it. *)
Lemma run_rendered (dq : bool) (f t : string) (r : Csv.Reader) :
  Csv.state r = Csv.START_FIELD ∨ Csv.state r = Csv.START_RECORD →
  Csv.field r = EmptyString →
  within_limit f →
  dq = true ∨ quote_free f →
  t = Csv.join_append f ∨ t = Csv.quote_field f →
  t ≠ EmptyString →
  ∃ r', run_chars (comma_quote_dialect dq) r (PyStr.chars t) = Ok r'
        ∧ Csv.fields r' = Csv.fields r ∧ Csv.field r' = f
        ∧ (Csv.state r' = Csv.IN_FIELD
           ∨ Csv.state r' = Csv.QUOTE_IN_QUOTED_FIELD).
Proof.
  intros Hst Hfld Hlim Hdq Ht Hne.
  assert ((t = f ∧ Forall (λ c, Csv.needs_quotes c = false) (PyStr.chars f))
          ∨ t = Csv.quote_field f) as [[-> Hplain]| ->].
  { destruct Ht as [->| ->]; [|by right]. unfold Csv.join_append.
    destruct (existsb _ _) eqn:E; [by right|left].
    split; [done|]. by apply existsb_false_Forall. }
  - destruct f as [|c f]; [done|]. cbn [PyStr.chars] in *.
    apply Forall_cons in Hplain as [Hc Hplain].
    rewrite run_chars_cons, start_unquoted by done.
    cbn [mbind Exc_bind]. rewrite run_in_field; [|done..].
    eexists. split; [done|]. cbn. auto.
  - unfold Csv.quote_field. cbn [PyStr.chars]. unfold PyStr.snoc.
    rewrite chars_append, run_chars_cons.
    change (Csv.quotechar Csv.excel) with Csv.dquote.
    rewrite start_quoted by done. cbn [mbind Exc_bind].
    rewrite run_chars_app, run_in_quoted_field;
      [|by destruct r|destruct r; cbn in *; by subst|done].
    cbn [mbind Exc_bind PyStr.chars]. rewrite run_chars_cons.
    unfold Csv.parse_process_char at 1. cbn [Csv.state].
    cbn [Csv.quotechar comma_quote_dialect].
    rewrite bool_decide_eq_true_2 by done.
    cbn [mbind Exc_bind Csv.doublequote comma_quote_dialect].
    eexists. split; [reflexivity|].
    destruct r; cbn in *; subst. destruct dq; auto.
Qed.

Lemma save_on_comma (dq : bool) (r : Csv.Reader) :
  Csv.state r = Csv.IN_FIELD ∨ Csv.state r = Csv.QUOTE_IN_QUOTED_FIELD →
  Csv.parse_process_char (comma_quote_dialect dq) r (Some Csv.comma)
  = Ok {| Csv.state := Csv.START_FIELD;
          Csv.fields := Csv.fields r ++ [Csv.field r];
          Csv.field := EmptyString |}.
Proof.
  intros Hst. destruct r as [st fs fld]. cbn in Hst.
  unfold Csv.parse_process_char. destruct Hst as [-> | ->]; reflexivity.
Qed.

Lemma save_on_CR (dq : bool) (r : Csv.Reader) :
  Csv.state r = Csv.IN_FIELD ∨ Csv.state r = Csv.QUOTE_IN_QUOTED_FIELD →
  Csv.parse_process_char (comma_quote_dialect dq) r (Some Csv.CR)
  = Ok {| Csv.state := Csv.EAT_CRNL;
          Csv.fields := Csv.fields r ++ [Csv.field r];
          Csv.field := EmptyString |}.
Proof.
  intros Hst. destruct r as [st fs fld]. cbn in Hst.
  unfold Csv.parse_process_char. destruct Hst as [-> | ->]; reflexivity.
Qed.

Lemma join_append_empty (f : string) :
  Csv.join_append f = EmptyString → f = EmptyString.
Proof.
  unfold Csv.join_append. destruct (existsb _ _); [|done].
  unfold Csv.quote_field. done.
Qed.

(** A field followed by the delimiter *)
Lemma field_then_comma (dq : bool) (f : string) (r : Csv.Reader) :
  Csv.state r = Csv.START_FIELD ∨ Csv.state r = Csv.START_RECORD →
  Csv.field r = EmptyString →
  within_limit f →
  dq = true ∨ quote_free f →
  run_chars (comma_quote_dialect dq) r
    (PyStr.chars (Csv.join_append f) ++ [Csv.comma])
  = Ok {| Csv.state := Csv.START_FIELD; Csv.fields := Csv.fields r ++ [f];
          Csv.field := EmptyString |}.
Proof.
  intros Hst Hfld Hlim Hdq. rewrite run_chars_app.
  destruct (decide (Csv.join_append f = EmptyString)) as [He|Hne].
  - rewrite He. apply join_append_empty in He as ->.
    cbn [PyStr.chars mbind Exc_bind]. change (run_chars _ r []) with (Ok r).
    cbn [mbind Exc_bind]. rewrite run_chars_cons.
    destruct r as [st fs fld]. cbn in Hst, Hfld. subst fld.
    unfold Csv.parse_process_char. destruct Hst as [-> | ->]; reflexivity.
  - destruct (run_rendered dq f _ r Hst Hfld Hlim Hdq (or_introl eq_refl) Hne)
      as (r' & -> & Hfs & Hf & Hst').
    cbn [mbind Exc_bind]. rewrite run_chars_cons, save_on_comma by done.
    cbn [mbind Exc_bind]. by rewrite Hfs, Hf.
Qed.

(** The last field of a record followed by a carriage return *)
Lemma field_then_CR (dq : bool) (f t : string) (r : Csv.Reader) :
  Csv.state r = Csv.START_FIELD ∨ Csv.state r = Csv.START_RECORD →
  Csv.field r = EmptyString →
  within_limit f →
  dq = true ∨ quote_free f →
  t = Csv.join_append f ∨ t = Csv.quote_field f →
  (Csv.state r = Csv.START_RECORD → t ≠ EmptyString) →
  run_chars (comma_quote_dialect dq) r (PyStr.chars t ++ [Csv.CR])
  = Ok {| Csv.state := Csv.EAT_CRNL; Csv.fields := Csv.fields r ++ [f];
          Csv.field := EmptyString |}.
Proof.
  intros Hst Hfld Hlim Hdq Ht Hrec. rewrite run_chars_app.
  destruct (decide (t = EmptyString)) as [He|Hne].
  - subst t. destruct Ht as [Ht|Ht]; [|done].
    symmetry in Ht. apply join_append_empty in Ht as ->.
    cbn [PyStr.chars]. change (run_chars _ r []) with (Ok r).
    cbn [mbind Exc_bind]. rewrite run_chars_cons.
    destruct r as [st fs fld]. cbn in Hst, Hfld, Hrec. subst fld.
    unfold Csv.parse_process_char.
    destruct Hst as [-> | ->]; [reflexivity|]. by destruct Hrec.
  - destruct (run_rendered dq f t r Hst Hfld Hlim Hdq Ht Hne)
      as (r' & -> & Hfs & Hf & Hst').
    cbn [mbind Exc_bind]. rewrite run_chars_cons, save_on_CR by done.
    cbn [mbind Exc_bind]. by rewrite Hfs, Hf.
Qed.

(** *** A whole record, a whole line, a whole text *)

Lemma join_cons_cons (sep x y : string) (l : list string) :
  PyStr.join sep (x :: y :: l) = x +:+ sep +:+ PyStr.join sep (y :: l).
Proof. reflexivity. Qed.

(** The fields of a record, joined by the delimiter and followed by a
    carriage return *)
Lemma record_run (dq : bool) (fs : list string) (f : string)
    (r : Csv.Reader) :
  Csv.state r = Csv.START_FIELD ∨ Csv.state r = Csv.START_RECORD →
  Csv.field r = EmptyString →
  Forall within_limit (f :: fs) →
  dq = true ∨ Forall quote_free (f :: fs) →
  (fs = [] → Csv.state r = Csv.START_RECORD →
   Csv.join_append f ≠ EmptyString) →
  run_chars (comma_quote_dialect dq) r
    (PyStr.chars (PyStr.join (String (Csv.delimiter Csv.excel) EmptyString)
                             (Csv.join_append f :: (Csv.join_append <$> fs)))
     ++ [Csv.CR])
  = Ok {| Csv.state := Csv.EAT_CRNL; Csv.fields := Csv.fields r ++ f :: fs;
          Csv.field := EmptyString |}.
Proof.
  revert f r. induction fs as [|g fs IH]; intros f r Hst Hfld Hlim Hdq Hrec.
  - apply Forall_cons in Hlim as [Hf _].
    apply field_then_CR; [done..| |by left|].
    + destruct Hdq as [?|Hfree]; [by left|right].
      by apply Forall_cons in Hfree as [? _].
    + intros. by apply Hrec.
  - apply Forall_cons in Hlim as [Hf Hlim].
    assert (dq = true ∨ quote_free f) as Hdqf.
    { destruct Hdq as [?|Hfree]; [by left|right].
      by apply Forall_cons in Hfree as [? _]. }
    assert (dq = true ∨ Forall quote_free (g :: fs)) as Hdqs.
    { destruct Hdq as [?|Hfree]; [by left|right].
      by apply Forall_cons in Hfree as [_ ?]. }
    rewrite fmap_cons, join_cons_cons, !chars_append.
    change (PyStr.chars (String (Csv.delimiter Csv.excel) EmptyString))
      with [Csv.comma].
    rewrite <- !app_assoc.
    rewrite (app_assoc (PyStr.chars (Csv.join_append f)) [Csv.comma]).
    rewrite run_chars_app.
    rewrite field_then_comma by done. cbn [mbind Exc_bind].
    rewrite (IH g); cbn [Csv.state Csv.fields Csv.field]; try done.
    + by rewrite <- app_assoc.
    + by left.
Qed.

Lemma join_not_empty (sep x y : string) (l : list string) :
  sep ≠ EmptyString → PyStr.join sep (x :: y :: l) ≠ EmptyString.
Proof.
  intros Hsep. rewrite join_cons_cons. destruct x as [|c x]; [|done].
  destruct sep; done.
Qed.

(** The line written for a record reads back as that record *)
Lemma writerow_read_back (dq : bool) (row : list string) :
  Forall within_limit row →
  dq = true ∨ Forall quote_free row →
  Csv.process_line (comma_quote_dialect dq) Csv.parse_reset
    (Csv.writerow row)
  = Ok {| Csv.state := Csv.START_RECORD; Csv.fields := row;
          Csv.field := EmptyString |}.
Proof.
  intros Hlim Hdq. unfold Csv.process_line.
  change (foldl _ (Ok Csv.parse_reset) ?cs)
    with (run_chars (comma_quote_dialect dq) Csv.parse_reset cs).
  unfold Csv.writerow.
  destruct row as [|f fs]; [reflexivity|].
  rewrite bool_decide_eq_true_2 by done. cbn [andb].
  set (body := PyStr.join _ _).
  assert (∀ t, (t = body ∧ body ≠ EmptyString)
               ∨ (t = Csv.quote_field EmptyString ∧ f = EmptyString
                  ∧ fs = []) →
               (r' ← run_chars (comma_quote_dialect dq) Csv.parse_reset
                       (PyStr.chars (t +:+ Csv.lineterminator));
                Csv.parse_process_char (comma_quote_dialect dq) r' None)
               = Ok {| Csv.state := Csv.START_RECORD; Csv.fields := f :: fs;
                       Csv.field := EmptyString |}) as Hrun.
  { intros t [[-> Hne]|(-> & -> & ->)]; [|by destruct dq].
    rewrite chars_append. unfold Csv.lineterminator. cbn [PyStr.chars].
    change (?a ++ [Csv.CR; Csv.LF]) with (a ++ [Csv.CR] ++ [Csv.LF]).
    rewrite app_assoc, run_chars_app. subst body. rewrite fmap_cons.
    rewrite record_run; [reflexivity|by right|done|done|done|].
    intros -> _. done. }
  destruct (PyStr.is_empty body) eqn:Hb.
  - apply Hrun. right.
    destruct body eqn:Eb; [|done]. subst body.
    destruct fs as [|g fs]; [|by apply join_not_empty in Eb].
    cbn in Eb. by apply join_append_empty in Eb as ->.
  - apply Hrun. left. split; [done|]. by destruct body.
Qed.

Lemma snoc_CR_LF (cur : string) :
  PyStr.snoc (PyStr.snoc cur Csv.CR) Csv.LF = cur +:+ Csv.lineterminator.
Proof. unfold PyStr.snoc. by rewrite append_assoc. Qed.

(** A line without inner line break is split off at its terminator *)
Lemma splitlines_line (body cur rest : string) :
  line_free body →
  Csv.splitlines_from cur (body +:+ Csv.lineterminator +:+ rest)
  = (cur +:+ body +:+ Csv.lineterminator)
    :: Csv.splitlines_from EmptyString rest.
Proof.
  revert cur. induction body as [|c body IH]; intros cur Hfree.
  - change (EmptyString +:+ ?s) with s.
    unfold Csv.lineterminator at 1.
    rewrite !append_cons. change (EmptyString +:+ rest) with rest.
    cbn [Csv.splitlines_from].
    rewrite (bool_decide_eq_false_2 (Csv.CR = Csv.LF)) by done.
    rewrite (bool_decide_eq_true_2 (Csv.CR = Csv.CR)) by done.
    rewrite (bool_decide_eq_true_2 (Csv.LF = Csv.LF)) by done.
    by rewrite snoc_CR_LF.
  - apply Forall_cons in Hfree as [Hc Hfree].
    unfold Csv.is_newline in Hc.
    apply orb_false_iff in Hc as [Hlf Hcr].
    rewrite append_cons. cbn [Csv.splitlines_from].
    rewrite Hlf, Hcr, IH by done. by rewrite snoc_append.
Qed.

Lemma line_free_append (a b : string) :
  line_free a → line_free b → line_free (a +:+ b).
Proof.
  unfold line_free. rewrite chars_append. apply Forall_app_2.
Qed.

Lemma line_free_escape (f : string) :
  line_free f → line_free (Csv.escape_field f).
Proof.
  unfold line_free. induction f as [|c f IH]; [done|].
  cbn [PyStr.chars Csv.escape_field]. intros [Hc Hf]%Forall_cons.
  case_bool_decide; cbn [PyStr.chars]; repeat constructor; auto.
Qed.

Lemma line_free_quote_field (f : string) :
  line_free f → line_free (Csv.quote_field f).
Proof.
  intros Hf. unfold Csv.quote_field, PyStr.snoc.
  apply (line_free_append (String _ EmptyString)).
  - by repeat constructor.
  - apply line_free_append; [by apply line_free_escape|].
    by repeat constructor.
Qed.

Lemma line_free_join_append (f : string) :
  line_free f → line_free (Csv.join_append f).
Proof.
  intros Hf. unfold Csv.join_append.
  destruct (existsb _ _); [by apply line_free_quote_field|done].
Qed.

Lemma line_free_join (l : list string) :
  Forall line_free l →
  line_free (PyStr.join (String (Csv.delimiter Csv.excel) EmptyString) l).
Proof.
  induction l as [|x l IH]; intros Hl; [constructor|].
  apply Forall_cons in Hl as [Hx Hl].
  destruct l as [|y l]; [done|].
  change (PyStr.join ?sep (x :: y :: l))
    with (x +:+ sep +:+ PyStr.join sep (y :: l)).
  apply line_free_append; [done|].
  apply line_free_append; [by repeat constructor|by apply IH].
Qed.

(** The text written for a record is the one line of [writerow] *)
Lemma splitlines_writerow (row : list string) (rest : string) :
  Forall line_free row →
  Csv.splitlines_from EmptyString (Csv.writerow row +:+ rest)
  = Csv.writerow row :: Csv.splitlines_from EmptyString rest.
Proof.
  intros Hfree. unfold Csv.writerow.
  set (text := if (bool_decide (row ≠ []) && _) then _ else _).
  assert (line_free text) as Htext.
  { subst text. destruct (bool_decide (row ≠ []) && _).
    - apply line_free_quote_field. constructor.
    - apply line_free_join, Forall_fmap.
      eapply Forall_impl; [done|]. intros f. apply line_free_join_append. }
  rewrite append_assoc, splitlines_line by done. done.
Qed.

Lemma reader_writerows (dq : bool) (rows : list (list string)) :
  Forall (Forall one_line_cell) rows →
  dq = true ∨ Forall (Forall quote_free) rows →
  Csv.reader (comma_quote_dialect dq) (PyStr.concat (Csv.writerow <$> rows))
  = Ok rows.
Proof.
  unfold Csv.reader, Csv.splitlines.
  induction rows as [|row rows IH]; intros Hrows Hdq; [reflexivity|].
  apply Forall_cons in Hrows as [Hrow Hrows].
  cbn [fmap list_fmap PyStr.concat foldr].
  change (foldr String.append EmptyString ?l) with (PyStr.concat l).
  rewrite splitlines_writerow
    by (eapply Forall_impl; [done|]; by intros f [? _]).
  cbn [Csv.reader_loop].
  rewrite writerow_read_back.
  - cbn [mbind Exc_bind Csv.state Csv.fields].
    rewrite bool_decide_eq_true_2 by done.
    rewrite IH; [done..|].
    destruct Hdq as [?|Hfree]; [by left|right].
    by apply Forall_cons in Hfree as [_ ?].
  - eapply Forall_impl; [done|]. by intros f [_ ?].
  - destruct Hdq as [?|Hfree]; [by left|right].
    by apply Forall_cons in Hfree as [? _].
Qed.

Lemma reads_export_dialect (d : Csv.Dialect) :
  reads_export d → d = comma_quote_dialect (Csv.doublequote d).
Proof. destruct d. intros (? & ? & ?). cbn in *. by subst. Qed.

(** *** The exported text *)

Lemma export_text_records (cols : list string) (rows : list Row) :
  export_text cols rows
  = PyStr.concat (Csv.writerow <$> cols :: (export_record cols <$> rows)).
Proof.
  unfold export_text. rewrite fmap_cons. cbn [PyStr.concat foldr].
  by rewrite <- list_fmap_compose.
Qed.

Lemma one_line_cell_empty : one_line_cell EmptyString.
Proof. split; [constructor|]. unfold within_limit, Csv.field_limit. cbn. lia. Qed.

Lemma export_record_one_line (self : CsvConsolidator) (row : Row) :
  one_line_cells self → row ∈ consolidatedData self →
  Forall one_line_cell (export_record (sorted_strs (allHeaders self)) row).
Proof.
  intros [_ Hcells] Hrow. apply Forall_fmap, Forall_forall. intros c _. cbn.
  destruct (cells row !! c) as [[v|]|] eqn:Hc; cbn;
    [by eapply Hcells | apply one_line_cell_empty..].
Qed.

Lemma sorted_strs_elem (hs : gset string) (h : string) :
  h ∈ sorted_strs hs ↔ h ∈ hs.
Proof. by rewrite sorted_strs_perm, elem_of_elements. Qed.

Lemma sorted_strs_NoDup (hs : gset string) : NoDup (sorted_strs hs).
Proof. rewrite sorted_strs_perm. apply NoDup_elements. Qed.

Lemma quote_free_empty : quote_free EmptyString.
Proof. constructor. Qed.

Lemma export_record_quote_free (self : CsvConsolidator) (row : Row) :
  quote_free_cells self → row ∈ consolidatedData self →
  Forall quote_free (export_record (sorted_strs (allHeaders self)) row).
Proof.
  intros [_ Hcells] Hrow. apply Forall_fmap, Forall_forall. intros c _. cbn.
  destruct (cells row !! c) as [[v|]|] eqn:Hc; cbn;
    [by eapply Hcells | apply quote_free_empty..].
Qed.

Lemma exported_records_read_back (dq : bool) (self : CsvConsolidator) :
  one_line_cells self →
  dq = true ∨ quote_free_cells self →
  Csv.reader (comma_quote_dialect dq)
    (export_text (sorted_strs (allHeaders self)) (consolidatedData self))
  = Ok (sorted_strs (allHeaders self)
        :: (export_record (sorted_strs (allHeaders self))
            <$> consolidatedData self)).
Proof.
  intros Hone Hdq. rewrite export_text_records. apply reader_writerows.
  - constructor.
    + apply Forall_forall. intros h Hh%sorted_strs_elem. by apply Hone.
    + apply Forall_fmap, Forall_forall. intros row Hrow. cbn.
      by apply export_record_one_line.
  - destruct Hdq as [?|Hfree]; [by left|right]. constructor.
    + apply Forall_forall. intros h Hh%sorted_strs_elem. by apply Hfree.
    + apply Forall_fmap, Forall_forall. intros row Hrow. cbn.
      by apply export_record_quote_free.
Qed.

(** [X8] What [exportResults] writes parses back, under [csv.excel], to
    the sorted headers followed by one record per consolidated row, each
    as wide as the header: the export is rectangular, whatever commas and
    quotes the cells hold, as long as headers and cells have no line break
    and fit the field size limit. The text meant is the one the output
    file holds whenever it was opened and written, and does hold when it
    can be. *)
Theorem exported_text_parses_back (w : World) (self : CsvConsolidator) :
  keys_within_headers self →
  one_line_cells self →
  let cols := sorted_strs (allHeaders self) in
  let text := export_text cols (consolidatedData self) in
  (∀ t, written (exportResults w self).1 = Some t → t = text)
  ∧ (output_writable w self → written (exportResults w self).1 = Some text)
  ∧ Csv.reader Csv.excel text
    = Ok (cols :: (export_record cols <$> consolidatedData self))
  ∧ Forall (λ record, length record = length cols)
           (export_record cols <$> consolidatedData self).
Proof.
  intros Hinv Hone cols text. subst cols text. split_and!.
  - intros t Ht. by apply exportResults_written in Ht as [-> _].
  - intros Hio. by rewrite exportResults_value.
  - apply (exported_records_read_back true); [done|by left].
  - apply Forall_fmap, Forall_forall. intros row _. cbn.
    unfold export_record. by rewrite length_fmap.
Qed.

Lemma dataset_xy_one_line_cells : one_line_cells dataset_xy.
Proof.
  assert (∀ s, s = "x" ∨ s = "y" ∨ s = "1" ∨ s = "2" → one_line_cell s)
    as Hall.
  { intros s Hs. split.
    - destruct Hs as [->|[->|[->| ->]]]; by repeat constructor.
    - unfold within_limit, Csv.field_limit.
      destruct Hs as [->|[->|[->| ->]]]; cbn; lia. }
  split.
  - intros h Hh. apply Hall. cbn in Hh.
    apply elem_of_union in Hh as [Hh%elem_of_singleton|Hh%elem_of_singleton];
      auto.
  - intros row c v Hrow Hc. apply Hall. cbn in Hrow.
    apply elem_of_cons in Hrow as [->|Hrow];
      [|apply list_elem_of_singleton in Hrow as ->];
      cbn [single_cell cells] in Hc;
      apply lookup_singleton_Some in Hc as [_ [= <-]]; auto.
Qed.

Lemma dataset_xy_written :
  written (exportResults (world_with_text "A,B,C" true) dataset_xy).1
  = Some text_export_xy.
Proof. vm_compute. reflexivity. Qed.

Lemma exported_text_parses_back_witness :
  written (exportResults (world_with_text "A,B,C" true) dataset_xy).1
  = Some text_export_xy
  ∧ Csv.reader Csv.excel text_export_xy
    = Ok [["x"; "y"]; ["1"; EmptyString]; [EmptyString; "2"]].
Proof.
  destruct (exported_text_parses_back (world_with_text "A,B,C" true)
              dataset_xy dataset_xy_keys_within_headers
              dataset_xy_one_line_cells) as (_ & Hwritten & Hread & _).
  split.
  - rewrite Hwritten by apply world_of_writable. vm_compute. reflexivity.
  - change text_export_xy
      with (export_text (sorted_strs (allHeaders dataset_xy))
                        (consolidatedData dataset_xy)).
    rewrite Hread. vm_compute. reflexivity.
Defined.

(** *** Ingesting an exported file *)

Lemma NoDup_not_later {A} (l : list A) (i : nat) (x : A) :
  NoDup l → l !! i = Some x → x ∉ drop (S i) l.
Proof.
  intros Hnd Hi Hin. apply list_elem_of_lookup in Hin as [j Hj].
  rewrite lookup_drop in Hj.
  pose proof (NoDup_lookup _ _ _ _ Hnd Hi Hj). lia.
Qed.

Lemma filter_all {A} (P : A → Prop) `{∀ x, Decision (P x)} (l : list A) :
  Forall P l → filter P l = l.
Proof.
  induction 1 as [|x l Hx Hl IH]; [done|].
  by rewrite filter_cons_True, IH.
Qed.

Lemma reingested_record (self : CsvConsolidator) (row : Row) :
  reingested self row
    (Csv.DictReader_row (sorted_strs (allHeaders self))
       (export_record (sorted_strs (allHeaders self)) row)).
Proof.
  set (cols := sorted_strs (allHeaders self)).
  destruct (DictReader_row_fits_spec cols (export_record cols row))
    as (Hrest & Hdom & _ & Hval).
  { unfold export_record. by rewrite length_fmap. }
  split_and!; [done| |].
  - rewrite Hdom. apply set_eq. intros h.
    rewrite elem_of_list_to_set. apply sorted_strs_elem.
  - intros c Hc. apply sorted_strs_elem, list_elem_of_lookup in Hc as [i Hi].
    fold cols in Hi. apply (Hval i); [done| |].
    + unfold export_record. by rewrite list_lookup_fmap, Hi.
    + apply NoDup_not_later; [apply sorted_strs_NoDup|done].
Qed.

(** [X9] Reading an exported file back with [readCsvFile] gives the sorted
    headers and one row per exported row, in order; each row now carries
    every header as a key, the cells that were absent or [None] being
    empty strings and the others unchanged. This needs a dataset with a
    header and a row, an exported text that is not made of whitespace
    only, and a sniffer that gives up or settles on the comma and the
    double quote without skipping spaces; when the sniffer does not take a
    doubled quote for a quote, no header or cell may hold a quote. *)
Theorem exported_file_ingests_back (w : World) (self : CsvConsolidator)
    (text : string) (w' : World) (p : Path) :
  keys_within_headers self →
  one_line_cells self →
  allHeaders self ≠ ∅ →
  consolidatedData self ≠ [] →
  written (exportResults w self).1 = Some text →
  open_read w' p = Ok text →
  PyStr.all_space text = false →
  reads_export (sniff_dialect w' text) →
  Csv.doublequote (sniff_dialect w' text) = true ∨ quote_free_cells self →
  ∃ rows', readCsvFile w' p
           = (rows', sorted_strs (allHeaders self), true)
           ∧ Forall2 (reingested self) (consolidatedData self) rows'.
Proof.
  intros Hinv Hone Hhdrs Hrows Hwritten Hopen Hsp Hsniff Hdq.
  apply exportResults_written in Hwritten as [-> _]; [|done].
  set (cols := sorted_strs (allHeaders self)).
  set (records := export_record cols <$> consolidatedData self).
  assert (cols ≠ []) as Hcols.
  { intros Hnil. apply Hhdrs, set_eq. intros h.
    rewrite <- sorted_strs_elem. fold cols. rewrite Hnil.
    split; [by intros ?%elem_of_nil|by intros ?%elem_of_empty]. }
  assert (filter (λ r : list string, r ≠ []) records = records) as Hfilter.
  { apply filter_all, Forall_fmap, Forall_forall. intros row _. cbn.
    unfold export_record. by destruct cols. }
  exists (Csv.DictReader_row cols <$> records). split.
  - rewrite (readCsvFile_text _ _ _ Hopen Hsp).
    rewrite (read_with_dialect_header_and_data _ _ cols records).
    + by rewrite Hfilter.
    + rewrite (reads_export_dialect _ Hsniff).
      by apply exported_records_read_back.
    + done.
    + rewrite Hfilter. subst records. by destruct (consolidatedData self).
  - subst records. rewrite <- list_fmap_compose.
    apply Forall2_fmap_r, Forall_Forall2_diag, Forall_forall.
    intros row _. apply reingested_record.
Qed.

Lemma dataset_xy_quote_free : quote_free_cells dataset_xy.
Proof.
  assert (∀ s, s = "x" ∨ s = "y" ∨ s = "1" ∨ s = "2" → quote_free s)
    as Hall.
  { intros s [->|[->|[->| ->]]]; by repeat constructor. }
  split.
  - intros h Hh. apply Hall. cbn in Hh.
    apply elem_of_union in Hh as [Hh%elem_of_singleton|Hh%elem_of_singleton];
      auto.
  - intros row c v Hrow Hc. apply Hall. cbn in Hrow.
    apply elem_of_cons in Hrow as [->|Hrow];
      [|apply list_elem_of_singleton in Hrow as ->];
      cbn [single_cell cells] in Hc;
      apply lookup_singleton_Some in Hc as [_ [= <-]]; auto.
Qed.

Lemma exported_file_ingests_back_witness :
  ∃ rows', readCsvFile world_after_export a_file
           = (rows', sorted_strs (allHeaders dataset_xy), true)
           ∧ Forall2 (reingested dataset_xy) (consolidatedData dataset_xy)
                     rows'.
Proof.
  apply (exported_file_ingests_back (world_with_text "A,B,C" true)
           dataset_xy text_export_xy world_after_export a_file
           dataset_xy_keys_within_headers dataset_xy_one_line_cells).
  - intros Hempty. assert ("x" ∈ allHeaders dataset_xy) as Hx
      by (apply elem_of_union_l; by apply elem_of_singleton).
    rewrite Hempty in Hx. by apply elem_of_empty in Hx.
  - discriminate.
  - apply dataset_xy_written.
  - reflexivity.
  - vm_compute. reflexivity.
  - by split_and!.
  - right. apply dataset_xy_quote_free.
Defined.

(** ** More on discovery *)

(** [X10] For a source directory whose name has none of [*], [?] and
    [[], every path [findCsvFiles] leaves in [csvFiles] is an entry of the
    source directory or, with recursion only, of a directory below it
    reached through names that do not start with a dot; its name ends in
    [.csv], in lower case as POSIX matching is case-sensitive, and does not
    start with a dot. *)
Theorem findCsvFiles_only_csv_entries (w : World) (self : CsvConsolidator)
    (p : Path) :
  Glob.has_magic (sourceDirectory self) = false →
  p ∈ csvFiles (findCsvFiles w self).2 →
  ∃ ds entries name sub,
    p = PyPath.parse (sourceDirectory self) ++ ds ++ [name]
    ∧ Glob.descends (tree w) ds (Glob.Dir entries)
    ∧ (name, sub) ∈ entries
    ∧ Forall (λ d, Glob.ishidden d = false) ds
    ∧ (includeSubdirectories self = false → ds = [])
    ∧ PyPath.name p = name
    ∧ PyStr.endswith ".csv" name = true
    ∧ PyStr.startswith_char "." name = false.
Proof.
  intros Hplain Hp.
  assert (∃ ds entries name sub,
            p = root_parts self ++ ds ++ [name]
            ∧ Glob.descends (tree w) ds (Glob.Dir entries)
            ∧ (name, sub) ∈ entries ∧ Glob.matches name
            ∧ (includeSubdirectories self = false → ds = []))
    as (ds & entries & name & sub & -> & Hd & Hin & [Hh Hm] & Hflat).
  { destruct (includeSubdirectories self) eqn:Hrec.
    - apply elem_of_found_deep in Hp
        as (ds & entries & name & sub & ? & ? & ? & ->); [|done..].
      by exists ds, entries, name, sub.
    - apply elem_of_found_top in Hp
        as (entries & name & sub & Htree & Hin & Hm & ->); [|done..].
      exists [], entries, name, sub. rewrite Htree.
      split_and!; [done|constructor|done..]. }
  exists ds, entries, name, sub.
  split_and!; try done.
  - by eapply descends_not_hidden.
  - by rewrite app_assoc, name_of_child.
Qed.

Lemma findCsvFiles_only_csv_entries_witness :
  ∃ ds entries name sub,
    ["data"; "a"; "b.csv"] = ["data"] ++ ds ++ [name]
    ∧ Glob.descends tree_file_beside_dir ds (Glob.Dir entries)
    ∧ (name, sub) ∈ entries
    ∧ Forall (λ d, Glob.ishidden d = false) ds
    ∧ (true = false → ds = [])
    ∧ PyPath.name ["data"; "a"; "b.csv"] = name
    ∧ PyStr.endswith ".csv" name = true
    ∧ PyStr.startswith_char "." name = false.
Proof.
  apply (findCsvFiles_only_csv_entries world_file_beside_dir
           (pointed_at_data true) ["data"; "a"; "b.csv"] eq_refl).
  rewrite findCsvFiles_files. vm_compute. apply list_elem_of_here.
Defined.

(** *** No file twice *)

Lemma glob_rec_nonempty (n : Glob.Node) (rel : Path) :
  rel ∈ Glob.glob_rec n → rel ≠ [].
Proof.
  intros Hrel%glob_rec_sound. destruct Hrel as (ds & _ & name & _ & -> & _).
  by destruct ds.
Qed.

Lemma NoDup_glob1 (entries : list (string * Glob.Node)) :
  NoDup (entries.*1) → NoDup (Glob.glob1 entries).
Proof. apply NoDup_filter. Qed.

Lemma NoDup_below (entries : list (string * Glob.Node)) :
  NoDup (entries.*1) →
  (∀ name sub, (name, sub) ∈ entries → NoDup (Glob.glob_rec sub)) →
  NoDup (flat_map (λ e, if Glob.ishidden e.1 then []
                        else cons e.1 <$> Glob.glob_rec e.2) entries).
Proof.
  induction entries as [|[name sub] entries IH]; intros Hnames Hsubs;
    [constructor|].
  cbn [fmap list_fmap fst] in Hnames.
  apply NoDup_cons in Hnames as [Hname Hnames].
  cbn [flat_map fst snd]. apply NoDup_app. split_and!.
  - destruct (Glob.ishidden name); [constructor|].
    apply NoDup_fmap_2; [intros ?? [=]; done|].
    apply (Hsubs name sub). left.
  - intros rel Hhere Hthere.
    apply list_elem_of_In, in_flat_map in Hthere as ([name' sub'] & Hin & Hrel).
    apply list_elem_of_In in Hin. cbn [fst snd] in Hrel.
    destruct (Glob.ishidden name); [by apply elem_of_nil in Hhere|].
    destruct (Glob.ishidden name'); [done|].
    apply list_elem_of_fmap in Hhere as (r1 & -> & _).
    apply list_elem_of_In, list_elem_of_fmap in Hrel as (r2 & [= <- _] & _).
    apply Hname, list_elem_of_fmap. by exists (name, sub').
  - apply IH; [done|]. intros n s Hin. apply (Hsubs n s). by right.
Qed.

Lemma NoDup_glob_rec (n : Glob.Node) :
  distinct_names n → NoDup (Glob.glob_rec n).
Proof.
  induction 1 as [|entries Hnames Hsubs IH]; [constructor|].
  cbn [Glob.glob_rec]. apply NoDup_app. split_and!.
  - apply NoDup_fmap_2; [intros ?? [=]; done|]. by apply NoDup_glob1.
  - intros rel (name & -> & _)%list_elem_of_fmap Hbelow.
    apply list_elem_of_In, in_flat_map in Hbelow as ([name' sub'] & _ & Hrel).
    cbn [fst snd] in Hrel. destruct (Glob.ishidden name'); [done|].
    apply list_elem_of_In, list_elem_of_fmap in Hrel as (r & [= _ <-] & Hr).
    by apply glob_rec_nonempty in Hr.
  - by apply NoDup_below.
Qed.

(** [X11] For a source directory whose name has none of [*], [?] and
    [[], and when no directory of the tree lists a name twice, no path
    occurs twice in [csvFiles]: [consolidateFiles] reads every discovered
    file once. *)
Theorem findCsvFiles_no_file_twice (w : World) (self : CsvConsolidator) :
  Glob.has_magic (sourceDirectory self) = false →
  distinct_names (tree w) →
  NoDup (csvFiles (findCsvFiles w self).2).
Proof.
  intros Hplain Hwf.
  rewrite findCsvFiles_files, sorted_paths_perm, globbed_plain by done.
  apply NoDup_fmap_2; [apply _|].
  pose proof (NoDup_glob_rec _ Hwf) as Hrec.
  destruct (includeSubdirectories self); [done|].
  destruct Hwf as [|entries Hnames _]; [constructor|].
  cbn [Glob.glob_top]. apply NoDup_fmap_2; [intros ?? [=]; done|].
  by apply NoDup_glob1.
Qed.

Lemma tree_file_beside_dir_distinct : distinct_names tree_file_beside_dir.
Proof.
  constructor.
  - cbn. apply NoDup_cons. split; [|apply NoDup_singleton].
    intros H%list_elem_of_singleton. discriminate.
  - intros name sub Hin. cbn in Hin.
    apply elem_of_cons in Hin as [[= -> ->]|Hin]; [constructor|].
    apply list_elem_of_singleton in Hin as [= -> ->].
    constructor; [apply NoDup_singleton|].
    intros n s Hin%list_elem_of_singleton. injection Hin as -> ->.
    constructor.
Qed.

Lemma findCsvFiles_no_file_twice_witness :
  NoDup (csvFiles (findCsvFiles world_file_beside_dir
                     (pointed_at_data true)).2).
Proof.
  apply (findCsvFiles_no_file_twice world_file_beside_dir
           (pointed_at_data true) eq_refl).
  apply tree_file_beside_dir_distinct.
Defined.

(** [X12] [findCsvFiles] depends on the source directory, the recursion
    flag and what [glob] lists only: it overwrites [csvFiles] whatever it held,
    changes no other attribute, returns [True] exactly when the new list
    is not empty, and running it again changes nothing. *)
Theorem findCsvFiles_overwrites_and_repeats (w : World)
    (self : CsvConsolidator) (stale : list Path) :
  findCsvFiles w (set_csvFiles stale self) = findCsvFiles w self
  ∧ findCsvFiles w (findCsvFiles w self).2 = findCsvFiles w self
  ∧ ((findCsvFiles w self).1 = true
     ↔ csvFiles (findCsvFiles w self).2 ≠ [])
  ∧ consolidatedData (findCsvFiles w self).2 = consolidatedData self
  ∧ allHeaders (findCsvFiles w self).2 = allHeaders self
  ∧ processedCount (findCsvFiles w self).2 = processedCount self
  ∧ errorCount (findCsvFiles w self).2 = errorCount self
  ∧ errorFiles (findCsvFiles w self).2 = errorFiles self.
Proof.
  rewrite !findCsvFiles_run. cbn [fst snd]. split_and!; try done.
  apply bool_decide_eq_true.
Qed.

(** ** The output file name *)

Lemma chars_replace_char (a b : ascii) (s : string) :
  PyStr.chars (PyChar.replace_char a b s)
  = (λ c, if bool_decide (c = a) then b else c) <$> PyStr.chars s.
Proof.
  induction s as [|c s IH]; [done|].
  cbn [PyChar.replace_char PyStr.chars fmap list_fmap]. by rewrite IH.
Qed.

Lemma chars_str_filter (keep : ascii → bool) (s : string) :
  PyStr.chars (PyChar.str_filter keep s) = List.filter keep (PyStr.chars s).
Proof.
  induction s as [|c s IH]; [done|].
  cbn [PyChar.str_filter PyStr.chars List.filter].
  destruct (keep c); cbn [PyStr.chars]; by rewrite IH.
Qed.

Lemma chars_inj (a b : string) : PyStr.chars a = PyStr.chars b → a = b.
Proof.
  revert b. induction a as [|c a IH]; intros [|d b] H; try done.
  cbn in H. injection H as -> H. f_equal. by apply IH.
Qed.

Lemma sanitized_chars (companyName : string) :
  Forall (λ c, file_name_char c = true)
         (PyStr.chars (sanitizedCompanyName companyName)).
Proof.
  unfold sanitizedCompanyName.
  rewrite chars_replace_char, chars_str_filter.
  apply Forall_fmap, Forall_forall. intros c Hc. cbn.
  apply list_elem_of_In, filter_In in Hc as [_ Hkeep]. cbn beta in Hkeep.
  case_bool_decide as Hsp; [reflexivity|].
  unfold file_name_char.
  rewrite ?(bool_decide_eq_false_2 _ Hsp), ?orb_false_r in Hkeep. done.
Qed.

Lemma file_name_char_plain (c : ascii) :
  file_name_char c = true →
  c ≠ "/"%char ∧ c ≠ "\"%char ∧ c ≠ "."%char ∧ c ≠ " "%char
  ∧ c ≠ ":"%char ∧ Csv.is_newline c = false.
Proof.
  intros Hc. split_and!; try (intros ->; vm_compute in Hc; discriminate).
  destruct (Csv.is_newline c) eqn:Hnl; [|done].
  unfold Csv.is_newline in Hnl.
  apply orb_true_iff in Hnl as [->%bool_decide_eq_true| ->%bool_decide_eq_true];
    vm_compute in Hc; discriminate.
Qed.

Lemma sanitized_fixed (s : string) :
  Forall (λ c, file_name_char c = true) (PyStr.chars s) →
  sanitizedCompanyName s = s.
Proof.
  intros Hs. apply chars_inj. unfold sanitizedCompanyName.
  rewrite chars_replace_char, chars_str_filter.
  induction (PyStr.chars s) as [|c cs IH]; [done|].
  apply Forall_cons in Hs as [Hc Hs]. cbn [List.filter].
  assert (c ≠ " "%char) as Hsp by by apply file_name_char_plain.
  unfold file_name_char in Hc.
  assert (PyChar.isalnum c || bool_decide (c = " "%char)
          || bool_decide (c = "-"%char) || bool_decide (c = "_"%char) = true)
    as ->.
  { rewrite (bool_decide_eq_false_2 _ Hsp), orb_false_r. done. }
  cbn [fmap list_fmap]. rewrite (bool_decide_eq_false_2 _ Hsp).
  f_equal. by apply IH.
Qed.

Lemma substring_skip (a b : string) (n : nat) :
  String.substring (String.length a) n (a +:+ b) = String.substring 0 n b.
Proof. induction a as [|c a IH]; [done|]. rewrite append_cons. exact IH. Qed.

Lemma substring_all (b : string) :
  String.substring 0 (String.length b) b = b.
Proof. induction b as [|c b IH]; [done|]. cbn. by rewrite IH. Qed.

Lemma endswith_append (a suf : string) :
  PyStr.endswith suf (a +:+ suf) = true.
Proof.
  unfold PyStr.endswith. rewrite length_append.
  apply andb_true_iff. split; [apply Nat.leb_le; lia|].
  apply bool_decide_eq_true.
  replace (String.length a + String.length suf - String.length suf)
    with (String.length a) by lia.
  by rewrite substring_skip, substring_all.
Qed.

Lemma outputFileName_matches (companyName timestamp : string) :
  Glob.matches (outputFileName companyName timestamp).
Proof.
  unfold Glob.matches, Glob.fnmatch_csv, Glob.ishidden, outputFileName.
  split.
  - pose proof (sanitized_chars companyName) as Hs.
    destruct (sanitizedCompanyName companyName) as [|c s]; [reflexivity|].
    rewrite append_cons. cbn [PyStr.startswith_char].
    apply bool_decide_eq_false. cbn [PyStr.chars] in Hs.
    apply Forall_cons in Hs as [Hc _]. by apply file_name_char_plain.
  - rewrite <- !append_assoc. apply endswith_append.
Qed.

(** [X13] The sanitized company name is made of letters, digits, [-] and
    [_] only: it has no space, dot, path separator, colon or line break.
    It is no longer than the name typed, sanitizing it again changes
    nothing, and a name already made of such characters is kept as it
    is. *)
Theorem sanitizedCompanyName_is_safe (companyName : string) :
  Forall (λ c, file_name_char c = true
               ∧ c ≠ "/"%char ∧ c ≠ "\"%char ∧ c ≠ "."%char
               ∧ c ≠ " "%char ∧ c ≠ ":"%char ∧ Csv.is_newline c = false)
         (PyStr.chars (sanitizedCompanyName companyName))
  ∧ String.length (sanitizedCompanyName companyName)
    ≤ String.length companyName
  ∧ sanitizedCompanyName (sanitizedCompanyName companyName)
    = sanitizedCompanyName companyName
  ∧ (Forall (λ c, file_name_char c = true) (PyStr.chars companyName) →
     sanitizedCompanyName companyName = companyName).
Proof.
  split_and!.
  - eapply Forall_impl; [apply sanitized_chars|].
    intros c Hc. split; [done|]. by apply file_name_char_plain.
  - unfold sanitizedCompanyName.
    rewrite !length_chars, chars_replace_char, chars_str_filter, length_fmap.
    induction (PyStr.chars companyName) as [|c cs IH]; [done|].
    cbn [List.filter]. destruct (_ || _); cbn [length]; lia.
  - apply sanitized_fixed, sanitized_chars.
  - apply sanitized_fixed.
Qed.

Lemma sanitizedCompanyName_is_safe_witness :
  sanitizedCompanyName "Contoso_Ltd-2" = "Contoso_Ltd-2".
Proof.
  apply (sanitizedCompanyName_is_safe "Contoso_Ltd-2").
  repeat constructor.
Defined.

Lemma exportResults_returned (w : World) (self : CsvConsolidator)
    (path : string) :
  returned (exportResults w self).1 = Some path → path = outputPath w self.
Proof.
  unfold exportResults, gets, mbind, M_bind, mret, M_ret.
  destruct (open_write w _); [|done].
  destruct (Csv.writerows _ _) as [body res].
  destruct (write_text w _ _); [|done]. cbn [fst returned].
  destruct res; [|done]. by intros [= <-].
Qed.

(** [X14] The path [exportResults] returns is the source directory joined
    with a file name that ends in [.csv] and does not start with a dot,
    whatever the company name and the clock. For a source directory whose
    name has none of [*], [?] and [[], once a file of that name is an
    entry of the source directory, [findCsvFiles] lists it among the files
    to consolidate, with or without recursion. *)
Theorem earlier_export_is_discovered (w w' : World) (self : CsvConsolidator)
    (entries : list (string * Glob.Node)) (sub : Glob.Node) :
  let name := outputFileName (companyName self) (timestamp w) in
  Glob.has_magic (sourceDirectory self) = false →
  tree w' = Glob.Dir entries →
  (name, sub) ∈ entries →
  (∀ path, returned (exportResults w self).1 = Some path →
           path = OsPath.join (sourceDirectory self) name)
  ∧ PyStr.endswith ".csv" name = true
  ∧ PyStr.startswith_char "." name = false
  ∧ PyPath.parse (sourceDirectory self) ++ [name]
    ∈ csvFiles (findCsvFiles w' self).2.
Proof.
  intros name Hplain Htree Hin.
  pose proof (outputFileName_matches (companyName self) (timestamp w))
    as [Hh Hm].
  split_and!; [apply exportResults_returned|done..|].
  assert (root_parts self ++ [name]
          ∈ (λ rel, root_parts self ++ rel) <$> Glob.glob_top (tree w'))
    as Htop.
  { apply list_elem_of_fmap. exists [name]. split; [done|].
    apply elem_of_glob_top. exists entries, name, sub. by split_and!. }
  rewrite findCsvFiles_files, sorted_paths_perm, globbed_plain by done.
  destruct (includeSubdirectories self); [|done].
  apply list_elem_of_fmap in Htop as (rel & Heq & Hrel).
  apply list_elem_of_fmap. exists rel. split; [done|].
  by apply glob_top_in_rec.
Qed.

Lemma earlier_export_is_discovered_witness :
  returned (exportResults (world_with_text "A,B,C" true) dataset_xy).1
  = Some "data/Contoso_ConsolidatedHardwareHashes_2026-01-01_0000.csv"
  ∧ ["data"; "Contoso_ConsolidatedHardwareHashes_2026-01-01_0000.csv"]
    ∈ csvFiles (findCsvFiles world_with_export dataset_xy).2.
Proof.
  split; [vm_compute; reflexivity|].
  apply (earlier_export_is_discovered (world_with_text "A,B,C" true)
           world_with_export dataset_xy
           [ ("export.csv", Glob.File);
             ("Contoso_ConsolidatedHardwareHashes_2026-01-01_0000.csv",
              Glob.File) ]
           Glob.File);
    [reflexivity|reflexivity|apply list_elem_of_further, list_elem_of_here].
Defined.

(** ** Console input *)

Lemma rstrip_idem (s : string) :
  PyStr.rstrip (PyStr.rstrip s) = PyStr.rstrip s.
Proof.
  induction s as [|c s IH]; [done|]. cbn [PyStr.rstrip].
  destruct (PyStr.is_empty (PyStr.rstrip s) && PyStr.isspace c) eqn:E;
    [done|].
  cbn [PyStr.rstrip]. by rewrite IH, E.
Qed.

Lemma lstrip_head (s : string) :
  PyStr.lstrip s = EmptyString
  ∨ ∃ c t, PyStr.lstrip s = String c t ∧ PyStr.isspace c = false.
Proof.
  induction s as [|c s IH]; [by left|]. cbn [PyStr.lstrip].
  destruct (PyStr.isspace c) eqn:Hc; [done|]. right. by exists c, s.
Qed.

Lemma strip_idem (s : string) : PyStr.strip (PyStr.strip s) = PyStr.strip s.
Proof.
  unfold PyStr.strip.
  destruct (lstrip_head s) as [->|(c & t & -> & Hc)]; [done|].
  cbn [PyStr.rstrip]. rewrite Hc, andb_false_r.
  cbn [PyStr.lstrip]. rewrite Hc. cbn [PyStr.rstrip].
  by rewrite rstrip_idem, Hc, andb_false_r.
Qed.

Lemma validateCompanyName_not_blank (name : string) :
  validateCompanyName name = negb (PyStr.all_space name).
Proof.
  unfold validateCompanyName. rewrite strip_empty_all_space.
  by destruct name.
Qed.

Lemma validateCompanyName_strip (line : string) :
  validateCompanyName (PyStr.strip line) = negb (PyStr.all_space line).
Proof.
  rewrite validateCompanyName_not_blank.
  by rewrite <- !strip_empty_all_space, strip_idem.
Qed.

Lemma getValidatedInput_spec (f : string → bool) (lines : list string)
    (v : string) (n : nat) (rest : list string) :
  getValidatedInput f lines = Some (v, n, rest) →
  ∃ skipped line,
    lines = skipped ++ line :: rest ∧ length skipped = n
    ∧ Forall (λ l, f (PyStr.strip l) = false) skipped
    ∧ v = PyStr.strip line ∧ f v = true.
Proof.
  revert n. induction lines as [|l lines IH]; intros n Hget; [done|].
  cbn [getValidatedInput] in Hget.
  destruct (f (PyStr.strip l)) eqn:Hf.
  - injection Hget as <- <- <-. by exists [], l.
  - destruct (getValidatedInput f lines) as [[[v' n'] rest']|]; [|done].
    injection Hget as <- <- <-.
    destruct (IH n' eq_refl) as (skipped & line & -> & <- & Hsk & -> & Hv).
    exists (l :: skipped), line. split_and!; try done. by constructor.
Qed.

Lemma getValidatedInput_None (f : string → bool) (lines : list string) :
  getValidatedInput f lines = None
  ↔ Forall (λ l, f (PyStr.strip l) = false) lines.
Proof.
  induction lines as [|l lines IH]; [done|].
  cbn [getValidatedInput]. rewrite Forall_cons, <- IH.
  destruct (f (PyStr.strip l)); [split; [done|by intros [? _]]|].
  destruct (getValidatedInput f lines) as [[[v n] rest]|];
    split; (done || by intros [_ ?]).
Qed.

(** [X15] Asked for the company name, [getValidatedInput] skips the blank
    lines, writing one error for each, and returns the first line that is
    not blank with the whitespace around it removed: the name it returns is
    never empty and neither begins nor ends with whitespace. It finds no
    name only when every line typed is blank. *)
Theorem company_name_is_first_nonblank_line (lines : list string) :
  (∀ v n rest,
      getValidatedInput validateCompanyName lines = Some (v, n, rest) →
      ∃ skipped line,
        lines = skipped ++ line :: rest ∧ length skipped = n
        ∧ Forall (λ l, PyStr.all_space l = true) skipped
        ∧ PyStr.all_space line = false
        ∧ v = PyStr.strip line
        ∧ v ≠ EmptyString ∧ PyStr.strip v = v)
  ∧ (getValidatedInput validateCompanyName lines = None
     ↔ Forall (λ l, PyStr.all_space l = true) lines).
Proof.
  split.
  - intros v n rest Hget.
    destruct (getValidatedInput_spec _ _ _ _ _ Hget)
      as (skipped & line & -> & <- & Hsk & -> & Hv).
    rewrite validateCompanyName_strip in Hv.
    exists skipped, line. split_and!; try done.
    + eapply Forall_impl; [done|]. intros l Hl. cbn in Hl.
      rewrite validateCompanyName_strip in Hl. by destruct (PyStr.all_space l).
    + by destruct (PyStr.all_space line).
    + intros He. rewrite <- strip_empty_all_space, He in Hv. done.
    + apply strip_idem.
  - rewrite getValidatedInput_None.
    split; intros H; (eapply Forall_impl; [exact H|]); intros l; cbn;
      rewrite validateCompanyName_strip; by destruct (PyStr.all_space l).
Qed.

Lemma company_name_is_first_nonblank_line_witness :
  ∃ skipped line,
    ["  "; " Contoso  "; "x"] = skipped ++ line :: ["x"]
    ∧ length skipped = 1
    ∧ Forall (λ l, PyStr.all_space l = true) skipped
    ∧ PyStr.all_space line = false
    ∧ "Contoso" = PyStr.strip line
    ∧ "Contoso" ≠ EmptyString ∧ PyStr.strip "Contoso" = "Contoso".
Proof.
  apply (company_name_is_first_nonblank_line ["  "; " Contoso  "; "x"]).
  reflexivity.
Defined.

Lemma lower_preimage (c : ascii) (n : nat) :
  97 ≤ n → n ≤ 122 →
  PyChar.lower c = ascii_of_nat n →
  c = ascii_of_nat n ∨ c = ascii_of_nat (n - 32).
Proof.
  intros Hlo Hhi. unfold PyChar.lower.
  pose proof (nat_ascii_bounded c) as Hb.
  destruct (_ || _) eqn:E.
  - intros H. right. apply (f_equal nat_of_ascii) in H.
    rewrite orb_true_iff, !andb_true_iff, !Nat.leb_le in E.
    rewrite !nat_ascii_embedding in H by lia.
    rewrite <- (ascii_nat_embedding c). f_equal. lia.
  - intros H. by left.
Qed.

Lemma str_lower_y (s : string) :
  PyChar.str_lower s = "y" ↔ s = "y" ∨ s = "Y".
Proof.
  split.
  - destruct s as [|c [|d s]]; try done. cbn [PyChar.str_lower].
    intros [= H]. apply (lower_preimage c 121) in H as [->| ->]; [auto..|lia|lia].
  - by intros [->| ->].
Qed.

Lemma str_lower_yes (s : string) :
  PyChar.str_lower s = "yes"
  ↔ ∃ a b c, s = String a (String b (String c EmptyString))
             ∧ (a = "y" ∨ a = "Y")%char ∧ (b = "e" ∨ b = "E")%char
             ∧ (c = "s" ∨ c = "S")%char.
Proof.
  split.
  - destruct s as [|a [|b [|c [|d s]]]]; try done. cbn [PyChar.str_lower].
    intros [= Ha Hb Hc].
    apply (lower_preimage a 121) in Ha; [|lia..].
    apply (lower_preimage b 101) in Hb; [|lia..].
    apply (lower_preimage c 115) in Hc; [|lia..].
    by exists a, b, c.
  - intros (a & b & c & -> & [->| ->] & [->| ->] & [->| ->]); reflexivity.
Qed.

(** [X16] [getYesNoInput] answers yes exactly when the line, with the
    whitespace around it removed, is [y] or [yes] in any mix of upper and
    lower case; every other line, the empty one included, means no. *)
Theorem getYesNoInput_accepts_y_or_yes (line : string) :
  (getYesNoInput line = true
   ↔ PyStr.strip line ∈ ["y"; "Y"]
     ∨ ∃ a b c, PyStr.strip line = String a (String b (String c EmptyString))
                ∧ (a = "y" ∨ a = "Y")%char ∧ (b = "e" ∨ b = "E")%char
                ∧ (c = "s" ∨ c = "S")%char)
  ∧ (PyStr.all_space line = true → getYesNoInput line = false).
Proof.
  unfold getYesNoInput. split.
  - rewrite orb_true_iff, !bool_decide_eq_true, str_lower_y, str_lower_yes.
    rewrite elem_of_cons, list_elem_of_singleton. done.
  - intros Hsp. rewrite <- strip_empty_all_space in Hsp.
    by destruct (PyStr.strip line).
Qed.

Lemma getYesNoInput_accepts_y_or_yes_witness :
  getYesNoInput "   " = false.
Proof. apply (getYesNoInput_accepts_y_or_yes "   "). reflexivity. Defined.

(** ** The progress display *)

Lemma length_repeat_char (c : ascii) (n : Z) :
  String.length (PyChar.repeat_char c n) = Z.to_nat n.
Proof.
  unfold PyChar.repeat_char.
  induction (Z.to_nat n) as [|k IH]; [done|].
  rewrite Nat.iter_succ. cbn [String.length]. by rewrite IH.
Qed.

Lemma length_prefix (n : nat) (s : string) :
  String.length (PyStr.prefix n s) = n `min` String.length s.
Proof.
  unfold PyStr.prefix. revert s. induction n as [|n IH]; intros [|c s];
    cbn; try done. by rewrite IH.
Qed.

(** [X17] While the files are read, that is for a file number between 1
    and the number of files, [showProgressBar] divides by a number that is
    not zero and draws a bar of exactly 50 characters, filled further as
    the number grows and full exactly at the last file; with no file at
    all the division fails. The activity label is the file name when it
    has at most 30 characters, and 33 characters long otherwise. *)
Theorem progress_bar_is_bounded (current total : Z) :
  (1 ≤ current ≤ total)%Z →
  (∃ filled,
      filledLength current total = Some filled
      ∧ (0 ≤ filled ≤ barLength)%Z
      ∧ String.length (progress_bar filled) = 50
      ∧ String.length (PyChar.repeat_char "=" filled) = Z.to_nat filled
      ∧ (filled = barLength ↔ current = total)
      ∧ ∀ later filled',
          (current ≤ later)%Z → filledLength later total = Some filled' →
          (filled ≤ filled')%Z)
  ∧ filledLength current 0 = None
  ∧ ∀ fileName,
      (String.length fileName ≤ 30 → activity_label fileName = fileName)
      ∧ (30 < String.length fileName →
         String.length (activity_label fileName) = 33).
Proof.
  intros Hrange. split_and!.
  - exists (barLength * current / total)%Z. unfold filledLength, barLength.
    rewrite (proj2 (Z.eqb_neq total 0)) by lia.
    assert (0 ≤ 50 * current / total)%Z as Hlo by (apply Z.div_pos; lia).
    assert (50 * current / total ≤ 50)%Z as Hhi
      by (apply Z.div_le_upper_bound; lia).
    split_and!; try done.
    + unfold progress_bar, barLength.
      rewrite length_append, !length_repeat_char. lia.
    + apply length_repeat_char.
    + split.
      * intros Hfull. destruct (decide (current = total)) as [|Hne]; [done|].
        assert (50 * current / total < 50)%Z; [|lia].
        apply Z.div_lt_upper_bound; lia.
      * intros ->. apply Z.div_mul. lia.
    + intros later filled' Hlater [= <-].
      apply Z.div_le_mono; lia.
  - done.
  - intros fileName. unfold activity_label. split.
    + intros Hshort.
      destruct (Nat.ltb_spec 30 (String.length fileName)); [lia|done].
    + intros Hlong.
      destruct (Nat.ltb_spec 30 (String.length fileName)); [|lia].
      rewrite length_append, length_prefix. cbn [String.length]. lia.
Qed.

Lemma progress_bar_is_bounded_witness :
  ∃ filled,
    filledLength 3 4 = Some filled
    ∧ (0 ≤ filled ≤ barLength)%Z
    ∧ String.length (progress_bar filled) = 50
    ∧ String.length (PyChar.repeat_char "=" filled) = Z.to_nat filled
    ∧ (filled = barLength ↔ 3%Z = 4%Z)
    ∧ ∀ later filled',
        (3 ≤ later)%Z → filledLength later 4 = Some filled' →
        (filled ≤ filled')%Z.
Proof. apply (progress_bar_is_bounded 3 4). lia. Defined.

(** ** [run] *)






